(** * SpaceX-ETL: the extract / load pipeline of [Src/api.py], [Src/db.py]
    and [Src/etl.py], embedded as Rocq functions.

    - Values.  A fetched record is a dictionary read with [.get]; it is
      modelled as the record of the keys the program reads, each of them
      missing, [null] or present.  Identifiers (a launch's [id], [rocket]
      and [launchpad]) are at their declared type [str]: the [Set[str]] and
      [Dict[str, int]] of the signatures, the [TEXT] column [spacex_id].
      Every other key holds [Any] JSON value.
    - Exceptions are an explicit result type.
    - The store is the three tables of [create_schema].  A row holds its
      values as [sqlite3] binds them; a table that was never created is the
      empty table.  A connection works on its own view of the database,
      which [commit] writes to the file and [close] drops.
    - The environment is explicit: the remote API (the response to each
      request), the host (order of iteration over a set, failures of the
      file system) and the storage engine (failures of a statement). *)

From Stdlib Require Import ZArith Ascii String Floats.SpecFloat.
From stdpp Require Import base option list gmap sets strings.

Open Scope Z_scope.

(** ** Python values and dictionaries read with [.get] *)

(** A JSON value other than [null]; Python's [None] is Rocq's [None] of
    [option value]. *)
#[local] Unset Elimination Schemes.
Inductive value : Type :=
  | VBool (b : bool)
  | VInt (z : Z)
  | VFloat (f : spec_float)
  | VStr (s : string)
  | VList (items : list value)
  | VDict (items : list (string * value)).
#[local] Set Elimination Schemes.

(** Python truth value testing ([if x:], [1 if x else 0]). *)
Definition truthy (v : option value) : bool :=
  match v with
  | None => false
  | Some (VBool b) => b
  | Some (VInt z) => negb (z =? 0)%Z
  | Some (VFloat (S754_zero _)) => false
  | Some (VFloat _) => true
  | Some (VStr s) => negb (String.eqb s "")
  | Some (VList items) => match items with [] => false | _ :: _ => true end
  | Some (VDict items) => match items with [] => false | _ :: _ => true end
  end.

(** Truth value of an [Optional[str]]. *)
Definition truthy_str (v : option string) : bool :=
  match v with
  | None => false
  | Some s => negb (String.eqb s "")
  end.

(** One key of a dictionary decoded from JSON: the key may be missing, may
    hold [null], or may hold a value. *)
Inductive field (A : Type) : Type :=
  | Missing
  | Null
  | Has (a : A).
Arguments Missing {A}.
Arguments Null {A}.
Arguments Has {A} a.

(** [d.get(key)]: [None] for a missing key and for [null] alike. *)
Definition get {A : Type} (f : field A) : option A :=
  match f with
  | Has a => Some a
  | Missing | Null => None
  end.

(** The keys of a launch that the program reads. *)
Record launch : Type := Launch {
  launch_id : field string;
  launch_name : field value;
  launch_date_utc : field value;
  launch_success : field value;
  launch_rocket : field string;
  launch_launchpad : field string;
  launch_details : field value
}.

(** The keys of a rocket that the program reads. *)
Record rocket : Type := Rocket {
  rocket_name : field value;
  rocket_type : field value;
  rocket_active : field value
}.

(** The keys of a launchpad that the program reads. *)
Record launchpad : Type := Launchpad {
  launchpad_name : field value;
  launchpad_region : field value;
  launchpad_latitude : field value;
  launchpad_longitude : field value
}.

(** ** Exceptions *)

(** What [requests.get], [raise_for_status] and [resp.json] raise; all are
    subclasses of [requests.RequestException]. *)
Inductive request_exception : Type :=
  | ConnectionError
  | Timeout
  | HTTPError (status : Z)
  | JSONDecodeError.

Inductive exn : Type :=
  | SystemExit (url : string) (exc : request_exception)
  | ValueError (msg : string)
  | OSError (path : string)
  | OverflowError
  | InterfaceError
  | OperationalError
  | ProgrammingError.

Inductive outcome (A : Type) : Type :=
  | Ok (a : A)
  | Raise (e : exn).
Arguments Ok {A} a.
Arguments Raise {A} e.

#[global] Instance outcome_ret : MRet outcome := λ A a, Ok a.
#[global] Instance outcome_bind : MBind outcome := λ A B f m,
  match m with
  | Ok a => f a
  | Raise e => Raise e
  end.

Definition is_ok {A : Type} (o : outcome A) : bool :=
  match o with
  | Ok _ => true
  | Raise _ => false
  end.

(** ** [Src/api.py] *)

(** What one GET request yields. *)
Inductive response (A : Type) : Type :=
  | Failed (exc : request_exception)
  | Body (json : A).
Arguments Failed {A} exc.
Arguments Body {A} json.

(** The JSON document at the top of a response body.  Only an array passes
    [isinstance(launches, list)]; its items are launches. *)
Inductive document : Type :=
  | DNull
  | DBool (b : bool)
  | DNumber (z : Z)
  | DString (s : string)
  | DObject (items : list (string * value))
  | DArray (items : list launch).

(** The remote API: the response to a GET of each URL, per resource. *)
Record remote : Type := Remote {
  http_launches : string → response document;
  http_rockets : string → response rocket;
  http_launchpads : string → response launchpad
}.

Definition BASE_URL : string := "https://api.spacexdata.com/v4".

(** [endpoint.lstrip('/')] *)
Fixpoint lstrip_slash (s : string) : string :=
  match s with
  | String "/"%char rest => lstrip_slash rest
  | _ => s
  end.

Definition get_json {A : Type} (http : string → response A) (endpoint : string)
    : outcome A :=
  let url := BASE_URL +:+ "/" +:+ lstrip_slash endpoint in
  match http url with
  | Body json => Ok json
  | Failed exc => Raise (SystemExit url exc)
  end.

Definition extract_all_launches (net : remote) : outcome (list launch) :=
  launches ← get_json (http_launches net) "launches";
  match launches with
  | DArray items => Ok items
  | _ => Raise (ValueError "Unexpected launches payload")
  end.

(** [ids.add(x)] on a [Set[str]]; the program calls it under [if x:] only,
    where [x] is a string. *)
Definition set_add (x : option string) (ids : gset string) : gset string :=
  match x with
  | Some s => {[ s ]} ∪ ids
  | None => ids
  end.

Definition extract_unique_ids (launches : list launch)
    : gset string * gset string :=
  foldl (λ '(rocket_ids, launchpad_ids) launch,
           let rid := get (launch_rocket launch) in
           let pid := get (launch_launchpad launch) in
           (if truthy_str rid then set_add rid rocket_ids else rocket_ids,
            if truthy_str pid then set_add pid launchpad_ids else launchpad_ids))
        (∅, ∅) launches.

(** What the interpreter's host decides: the order in which a set is
    iterated (string hashing is randomised per process), whether writing a
    snapshot file fails, and whether opening the database fails. *)
Record host : Type := Host {
  set_order : gset string → list string;
  write_fails : string → bool;
  connect_fails : bool
}.

(** [d[k] = v] on a dictionary kept in insertion order. *)
Fixpoint dict_set {V : Type} (k : string) (v : V) (d : list (string * V))
    : list (string * V) :=
  match d with
  | [] => [(k, v)]
  | (k', v') :: rest =>
      if String.eqb k k' then (k, v) :: rest else (k', v') :: dict_set k v rest
  end.

(** The loop [for x in ids: d[x] = get_json(f"{resource}/{x}")] over the
    identifiers in the order in which the set is iterated. *)
Fixpoint fetch_each {V : Type} (http : string → response V) (resource : string)
    (ids : list string) (d : list (string * V)) : outcome (list (string * V)) :=
  match ids with
  | [] => Ok d
  | x :: rest =>
      v ← get_json http (resource +:+ "/" +:+ x);
      fetch_each http resource rest (dict_set x v d)
  end.

Definition fetch_rockets (net : remote) (h : host) (unique_rocket_ids : gset string)
    : outcome (list (string * rocket)) :=
  fetch_each (http_rockets net) "rockets" (set_order h unique_rocket_ids) [].

Definition fetch_launchpads (net : remote) (h : host)
    (unique_launchpad_ids : gset string) : outcome (list (string * launchpad)) :=
  fetch_each (http_launchpads net) "launchpads" (set_order h unique_launchpad_ids) [].

(** ** The SQLite store behind [Src/db.py] *)

(** A value held in a column. *)
Inductive sqlval : Type :=
  | SNull
  | SInt (z : Z)
  | SReal (f : spec_float)
  | SText (s : string).

(** How the [sqlite3] module binds one Python parameter of [cur.execute]:
    [None] is NULL, [bool] and [int] are INTEGER (a 64-bit one, else
    [OverflowError]), [float] is REAL (NaN is stored as NULL), [str] is
    TEXT, and a [list] or [dict] is not supported.  A row below holds the
    values as bound. *)
Definition bind_param (v : option value) : outcome sqlval :=
  match v with
  | None => Ok SNull
  | Some (VBool b) => Ok (SInt (if b then 1 else 0))
  | Some (VInt z) =>
      if bool_decide (- 2 ^ 63 ≤ z < 2 ^ 63)%Z then Ok (SInt z)
      else Raise OverflowError
  | Some (VFloat S754_nan) => Ok SNull
  | Some (VFloat f) => Ok (SReal f)
  | Some (VStr s) => Ok (SText s)
  | Some (VList _) | Some (VDict _) => Raise InterfaceError
  end.

(** A row of a table [(id INTEGER PRIMARY KEY AUTOINCREMENT,
    spacex_id TEXT UNIQUE, ...)]: the surrogate key, the natural key (NULL
    is [None]) and the remaining columns. *)
Record row (C : Type) : Type := Row {
  rowid : Z;
  spacex_id : option string;
  cols : C
}.
Arguments Row {C} rowid spacex_id cols.
Arguments rowid {C} r.
Arguments spacex_id {C} r.
Arguments cols {C} r.

(** A table: its rows in insertion order and the largest key AUTOINCREMENT
    has handed out (its entry in [sqlite_sequence]).  A table that was never
    created is the empty table. *)
Record table (C : Type) : Type := Table {
  rows : list (row C);
  sequence : Z
}.
Arguments Table {C} rows sequence.
Arguments rows {C} t.
Arguments sequence {C} t.

Record rockets_cols : Type := RocketsCols {
  rockets_name : sqlval;
  rockets_type : sqlval;
  rockets_active : sqlval
}.

Record launchpads_cols : Type := LaunchpadsCols {
  launchpads_name : sqlval;
  launchpads_region : sqlval;
  launchpads_latitude : sqlval;
  launchpads_longitude : sqlval
}.

Record launches_cols : Type := LaunchesCols {
  launches_name : sqlval;
  launches_date_utc : sqlval;
  launches_success : sqlval;
  launches_rocket_id : sqlval;
  launches_launchpad_id : sqlval;
  launches_details : sqlval
}.

Record database : Type := Database {
  rockets : table rockets_cols;
  launchpads : table launchpads_cols;
  launches : table launches_cols
}.

Definition empty_table {C : Type} : table C := Table [] 0.
Definition empty_database : database :=
  Database empty_table empty_table empty_table.

(** The UNIQUE constraint on [spacex_id]: a new key conflicts with a row
    holding the same text; NULL conflicts with nothing. *)
Definition conflicts {C : Type} (k : option string) (t : table C) : bool :=
  match k with
  | None => false
  | Some s => bool_decide (Some s ∈ spacex_id <$> rows t)
  end.

Definition max_rowid {C : Type} (t : table C) : Z :=
  foldr Z.max 0 (rowid <$> rows t).

(** The key AUTOINCREMENT picks: one more than the largest key in the table
    and than the largest key ever handed out. *)
Definition next_rowid {C : Type} (t : table C) : Z :=
  Z.max (max_rowid t) (sequence t) + 1.

(** The storage engine's side of a statement: whether the n-th call into it
    fails (locked or full database, I/O error), and whether a key picked for
    an insertion that is then ignored stays consumed (SQLite documents that
    it might). *)
Record engine : Type := Engine {
  fault : nat → bool;
  gap_on_ignore : bool
}.

(** [INSERT OR IGNORE INTO t (spacex_id, ...) VALUES (k, c)]. *)
Definition insert_or_ignore {C : Type} (eng : engine) (k : option string) (c : C)
    (t : table C) : table C :=
  let i := next_rowid t in
  if conflicts k t then Table (rows t) (if gap_on_ignore eng then i else sequence t)
  else Table (rows t ++ [Row i k c]) i.

(** [{row[1]: row[0] for row in cur.fetchall()}] over
    [SELECT id, spacex_id FROM t]. *)
Definition id_map {C : Type} (t : table C) : gmap (option string) Z :=
  foldl (λ m r, <[spacex_id r := rowid r]> m) ∅ (rows t).

(** ** The connection *)

Inductive event : Type :=
  | Opened
  | Closed.

(** The database file as last committed, the open connection (with its
    uncommitted view of the database) if there is one, the number of calls
    made into the engine, and the connections opened and closed so far. *)
Record state : Type := State {
  disk : database;
  session : option database;
  calls : nat;
  trace : list event
}.

Definition M (A : Type) : Type := state → outcome A * state.

#[global] Instance M_ret : MRet M := λ A a s, (Ok a, s).
#[global] Instance M_bind : MBind M := λ A B f m s,
  match m s with
  | (Ok a, s') => f a s'
  | (Raise e, s') => (Raise e, s')
  end.

Definition lift {A : Type} (o : outcome A) : M A := λ s, (o, s).

(** [try: body finally: handler] *)
Definition try_finally {A : Type} (body : M A) (handler : M unit) : M A := λ s,
  let '(r, s1) := body s in
  match handler s1 with
  | (Ok _, s2) => (r, s2)
  | (Raise e, s2) => (Raise e, s2)
  end.

(** [for x in l: body(x)] *)
Fixpoint for_each {A : Type} (body : A → M unit) (l : list A) : M unit :=
  match l with
  | [] => mret tt
  | x :: rest => body x;; for_each body rest
  end.

Definition DB_PATH : string := "Data/DB/spacex.db".

Definition get_connection (h : host) : M unit := λ s,
  if connect_fails h then (Raise OperationalError, s)
  else (Ok tt, State (disk s) (Some (disk s)) (calls s) (trace s ++ [Opened])).

(** [conn.close()]: uncommitted changes are dropped. *)
Definition close : M unit := λ s,
  (Ok tt, State (disk s) None (calls s) (trace s ++ [Closed])).

(** ** [Src/db.py] *)

Section Db.
Variable eng : engine.

(** [conn.cursor()] *)
Definition cursor : M unit := λ s,
  match session s with
  | None => (Raise ProgrammingError, s)
  | Some _ => (Ok tt, s)
  end.

(** [cur.execute(sql, params)] of a statement that writes: the parameters
    are bound, then the engine runs the statement on the connection's
    view. *)
Definition execute {X : Type} (params : outcome X)
    (stmt : X → database → database) : M unit := λ s,
  match session s with
  | None => (Raise ProgrammingError, s)
  | Some w =>
      match params with
      | Raise e => (Raise e, s)
      | Ok x =>
          if fault eng (calls s)
          then (Raise OperationalError,
                State (disk s) (Some w) (S (calls s)) (trace s))
          else (Ok tt,
                State (disk s) (Some (stmt x w)) (S (calls s)) (trace s))
      end
  end.

(** [cur.execute("SELECT ..."); cur.fetchall()] *)
Definition query {X : Type} (select : database → X) : M X := λ s,
  match session s with
  | None => (Raise ProgrammingError, s)
  | Some w =>
      if fault eng (calls s)
      then (Raise OperationalError,
            State (disk s) (Some w) (S (calls s)) (trace s))
      else (Ok (select w),
            State (disk s) (Some w) (S (calls s)) (trace s))
  end.

(** [conn.commit()] *)
Definition commit : M unit := λ s,
  match session s with
  | None => (Raise ProgrammingError, s)
  | Some w =>
      if fault eng (calls s)
      then (Raise OperationalError,
            State (disk s) (Some w) (S (calls s)) (trace s))
      else (Ok tt, State w (Some w) (S (calls s)) (trace s))
  end.

(** [CREATE TABLE IF NOT EXISTS]: no table is altered. *)
Definition create_table : M unit := execute (Ok tt) (λ _ w, w).

Definition create_schema : M unit :=
  cursor;;
  create_table;;
  create_table;;
  create_table;;
  commit.

Definition insert_rocket (spacex_id : option string) (c : rockets_cols)
    (w : database) : database :=
  Database (insert_or_ignore eng spacex_id c (rockets w)) (launchpads w) (launches w).

Definition insert_launchpad (spacex_id : option string) (c : launchpads_cols)
    (w : database) : database :=
  Database (rockets w) (insert_or_ignore eng spacex_id c (launchpads w)) (launches w).

Definition insert_launch (spacex_id : option string) (c : launches_cols)
    (w : database) : database :=
  Database (rockets w) (launchpads w) (insert_or_ignore eng spacex_id c (launches w)).

(** The parameters of the INSERT into [rockets], after [spacex_id]. *)
Definition rocket_params (r : rocket) : outcome rockets_cols :=
  name ← bind_param (get (rocket_name r));
  type ← bind_param (get (rocket_type r));
  active ← bind_param (Some (VInt (if truthy (get (rocket_active r)) then 1 else 0)));
  mret (RocketsCols name type active).

(** The parameters of the INSERT into [launchpads], after [spacex_id]. *)
Definition launchpad_params (p : launchpad) : outcome launchpads_cols :=
  let latitude := get (launchpad_latitude p) in
  let longitude := get (launchpad_longitude p) in
  name ← bind_param (get (launchpad_name p));
  region ← bind_param (get (launchpad_region p));
  latitude ← bind_param latitude;
  longitude ← bind_param longitude;
  mret (LaunchpadsCols name region latitude longitude).

Definition load_dimension_tables (rockets_map : list (string * rocket))
    (launchpads_map : list (string * launchpad))
    : M (gmap (option string) Z * gmap (option string) Z) :=
  cursor;;
  for_each (λ '(spacex_id, r),
              execute (rocket_params r) (insert_rocket (Some spacex_id)))
           rockets_map;;
  for_each (λ '(spacex_id, p),
              execute (launchpad_params p) (insert_launchpad (Some spacex_id)))
           launchpads_map;;
  commit;;
  rocket_id_map ← query (λ w, id_map (rockets w));
  launchpad_id_map ← query (λ w, id_map (launchpads w));
  mret (rocket_id_map, launchpad_id_map).

(** The parameters of the INSERT into [launches], after [spacex_id]. *)
Definition launch_params (rocket_id_map launchpad_id_map : gmap (option string) Z)
    (launch : launch) : outcome launches_cols :=
  let rocket_spacex := get (launch_rocket launch) in
  let launchpad_spacex := get (launch_launchpad launch) in
  let rocket_id := rocket_id_map !! rocket_spacex in
  let launchpad_id := launchpad_id_map !! launchpad_spacex in
  let success_val := get (launch_success launch) in
  let success_int :=
    match success_val with
    | None => None
    | Some _ => Some (VInt (if truthy success_val then 1 else 0))
    end in
  name ← bind_param (get (launch_name launch));
  date_utc ← bind_param (get (launch_date_utc launch));
  success ← bind_param success_int;
  rocket_id ← bind_param (VInt <$> rocket_id);
  launchpad_id ← bind_param (VInt <$> launchpad_id);
  details ← bind_param (get (launch_details launch));
  mret (LaunchesCols name date_utc success rocket_id launchpad_id details).

Definition load_launches (launches : list launch)
    (rocket_id_map launchpad_id_map : gmap (option string) Z) : M unit :=
  cursor;;
  for_each (λ launch,
              let spacex_id := get (launch_id launch) in
              execute (launch_params rocket_id_map launchpad_id_map launch)
                      (insert_launch spacex_id))
           launches;;
  commit.
End Db.

(** ** [Src/etl.py] *)

Definition RAW_DIR : string := "Data/Row".

Definition save_raw_json {A : Type} (h : host) (name : string) (data : A)
    : outcome unit :=
  let path := RAW_DIR +:+ "/" +:+ name +:+ ".json" in
  if write_fails h path then Raise (OSError path) else Ok tt.

Definition run_etl (net : remote) (h : host) (eng : engine) : M unit :=
  launches ← lift (extract_all_launches net);
  let '(rocket_ids, launchpad_ids) := extract_unique_ids launches in
  rockets_map ← lift (fetch_rockets net h rocket_ids);
  launchpads_map ← lift (fetch_launchpads net h launchpad_ids);
  lift (save_raw_json h "launches" launches);;
  lift (save_raw_json h "rockets" rockets_map);;
  lift (save_raw_json h "launchpads" launchpads_map);;
  get_connection h;;
  try_finally
    (create_schema eng;;
     '(rocket_id_map, launchpad_id_map) ←
       load_dimension_tables eng rockets_map launchpads_map;
     load_launches eng launches rocket_id_map launchpad_id_map)
    close.

(** A run of the program on a database file. *)
Definition start (d : database) : state := State d None 0 [].

(** * Properties *)

(** ** Tables under [INSERT OR IGNORE] *)

(** The natural keys held in a table, NULLs included. *)
Definition keys {C : Type} (t : table C) : list (option string) :=
  spacex_id <$> rows t.

(** The UNIQUE constraint of the schema: no text occurs twice as a key. *)
Definition unique_keys {C : Type} (t : table C) : Prop :=
  NoDup (omap spacex_id (rows t)).

(** A run of INSERT OR IGNORE statements, one per pair of a key and its
    columns. *)
Definition insert_all {C : Type} (eng : engine) (kcs : list (option string * C))
    (t : table C) : table C :=
  foldl (λ t kc, insert_or_ignore eng kc.1 kc.2 t) t kcs.

(** The effect on the connection's view of a loop of statements that all
    run: statement [stmt x p] for each item [x] whose parameters bind to
    [p]. *)
Definition run_all {A X : Type} (params : A → outcome X)
    (stmt : A → X → database → database) (l : list A) (w : database) : database :=
  foldl (λ w x, match params x with Ok p => stmt x p w | Raise _ => w end) w l.

(** The keys and bound columns of the items of a loop. *)
Definition bound {A X : Type} (key : A → option string) (params : A → outcome X)
    (l : list A) : list (option string * X) :=
  omap (λ x, match params x with Ok p => Some (key x, p) | Raise _ => None end) l.

(** The items of a loop of INSERT OR IGNORE statements whose statement
    stores a row, given the keys that the table holds when the loop starts:
    every item with a NULL key, and the first item with each text key that
    the table does not hold.  The statement of any other item is ignored. *)
Fixpoint inserted {A : Type} (key : A → option string)
    (held : list (option string)) (l : list A) : list A :=
  match l with
  | [] => []
  | x :: rest =>
      match key x with
      | None => x :: inserted key held rest
      | Some k =>
          if bool_decide (Some k ∈ held) then inserted key held rest
          else x :: inserted key (Some k :: held) rest
      end
  end.

(** Table [t'] holds the rows of [t], unchanged and in place, followed by
    one row per inserted item of the loop over [l], in order, with the key
    and the bound columns of that item. *)
Definition appended {A C : Type} (key : A → option string)
    (params : A → outcome C) (l : list A) (t t' : table C) : Prop :=
  ∃ new,
    rows t' = rows t ++ new
    ∧ Forall2 (λ x r, spacex_id r = key x ∧ params x = Ok (cols r))
        (inserted key (keys t) l) new.

(** A property [Pd] of the database file together with a property [Pw] of
    the open connection's view of the database. *)
Definition inv (Pd Pw : database → Prop) (s : state) : Prop :=
  Pd (disk s) ∧ ∀ w, session s = Some w → Pw w.

(** The computation keeps both, whatever its outcome. *)
Definition keeps {A : Type} (Pd Pw : database → Prop) (m : M A) : Prop :=
  ∀ s, inv Pd Pw s → inv Pd Pw (m s).2.

(** The computation neither opens nor closes a connection. *)
Definition quiet {A : Type} (m : M A) : Prop :=
  ∀ s, trace (m s).2 = trace s
       ∧ (session (m s).2 = None ↔ session s = None).

(** The non-empty strings that some launch holds under a reference key. *)
Definition referenced (f : launch → field string) (launches : list launch)
    : gset string :=
  list_to_set (filter (λ v, v ≠ "") (omap (λ l, get (f l)) launches)).

(** The host iterates a set over exactly its elements, each once. *)
Definition host_ok (h : host) : Prop :=
  ∀ ids : gset string, set_order h ids ≡ₚ elements ids.

(** The statements of [run_etl] under its [try:]. *)
Definition storage (eng : engine) (launches : list launch)
    (rockets_map : list (string * rocket))
    (launchpads_map : list (string * launchpad)) : M unit :=
  create_schema eng;;
  '(rocket_id_map, launchpad_id_map) ←
    load_dimension_tables eng rockets_map launchpads_map;
  load_launches eng launches rocket_id_map launchpad_id_map.

(** The engine raises nothing. *)
Definition no_fault (eng : engine) : Prop := ∀ n, fault eng n = false.

(** The value is of a type that [sqlite3] binds. *)
Definition bindable (v : option value) : Prop := is_ok (bind_param v) = true.

Definition launch_bindable (l : launch) : Prop :=
  bindable (get (launch_name l)) ∧ bindable (get (launch_date_utc l))
  ∧ bindable (get (launch_details l)).

Definition rocket_bindable (r : rocket) : Prop :=
  bindable (get (rocket_name r)) ∧ bindable (get (rocket_type r)).

Definition launchpad_bindable (p : launchpad) : Prop :=
  bindable (get (launchpad_name p)) ∧ bindable (get (launchpad_region p))
  ∧ bindable (get (launchpad_latitude p)) ∧ bindable (get (launchpad_longitude p)).

(** A 64-bit signed integer, as SQLite's keys are. *)
Definition int64 (z : Z) : Prop := - 2 ^ 63 ≤ z < 2 ^ 63.

(** The foreign-key column that resolves a reference through a mapping. *)
Definition resolved (id_map : gmap (option string) Z) (ref : option string)
    (col : sqlval) : Prop :=
  match id_map !! ref with
  | Some i => col = SInt i
  | None => col = SNull
  end.

(** The view of the connection after the dimension loader has run all its
    statements. *)
Definition dimensions_loaded (eng : engine) (rockets_map : list (string * rocket))
    (launchpads_map : list (string * launchpad)) (w : database) : database :=
  Database
    (insert_all eng
       (bound (λ kr, Some kr.1) (λ kr, rocket_params kr.2) rockets_map)
       (rockets w))
    (insert_all eng
       (bound (λ kp, Some kp.1) (λ kp, launchpad_params kp.2) launchpads_map)
       (launchpads w))
    (launches w).

(** The view of the connection after the fact loader has run all its
    statements. *)
Definition launches_loaded (eng : engine) (launches0 : list launch)
    (rm pm : gmap (option string) Z) (w : database) : database :=
  Database (rockets w) (launchpads w)
    (insert_all eng
       (bound (λ l, get (launch_id l)) (launch_params rm pm) launches0)
       (launches w)).

(** A dimension table as this program leaves it, with room for [n] more
    keys: it satisfies its UNIQUE constraint, every row has a text key, and
    the surrogate keys in use and the next [n] ones are 64-bit integers. *)
Definition dimension_ok {C : Type} (n : nat) (t : table C) : Prop :=
  unique_keys t ∧ (None ∉ keys t)
  ∧ Forall (λ r, - 2 ^ 63 ≤ rowid r) (rows t)
  ∧ next_rowid t + Z.of_nat n ≤ 2 ^ 63.

(** The foreign-key column [col] resolves the reference [ref] against the
    dimension table [dim]: it is NULL when the launch has no reference or
    when no row of [dim] has the referenced id, and it is the surrogate key
    of the row of [dim] that has the referenced id otherwise. *)
Definition foreign_key {C : Type} (dim : table C) (ref : option string)
    (col : sqlval) : Prop :=
  match ref with
  | None => col = SNull
  | Some v =>
      (∀ r, r ∈ rows dim → spacex_id r = Some v → col = SInt (rowid r))
      ∧ (Some v ∉ keys dim → col = SNull)
  end.

(** Two databases hold the same rows, table by table. *)
Definition same_rows (d d' : database) : Prop :=
  rows (rockets d) = rows (rockets d')
  ∧ rows (launchpads d) = rows (launchpads d')
  ∧ rows (launches d) = rows (launches d').

(** Database [d'] holds every row of [d], unchanged and in place, at the
    front of the same table. *)
Definition extends (d d' : database) : Prop :=
  rows (rockets d) `prefix_of` rows (rockets d')
  ∧ rows (launchpads d) `prefix_of` rows (launchpads d')
  ∧ rows (launches d) `prefix_of` rows (launches d').

(** A foreign-key column is NULL or the surrogate key of a row of the
    dimension table. *)
Definition fk_valid {C : Type} (dim : table C) (col : sqlval) : Prop :=
  match col with
  | SNull => True
  | SInt i => i ∈ rowid <$> rows dim
  | SReal _ | SText _ => False
  end.

(** Referential integrity of the [launches] table, which the schema
    declares and SQLite does not enforce unless asked to. *)
Definition references_ok (d : database) : Prop :=
  Forall (λ r, fk_valid (rockets d) (launches_rocket_id (cols r))
               ∧ fk_valid (launchpads d) (launches_launchpad_id (cols r)))
         (rows (launches d)).

#[local] Set Warnings "-clear-no-such-hyp".

Section Tables.
Context {C : Type}.
Variable eng : engine.
Implicit Types (t : table C) (k : option string) (c : C) (r : row C).

Lemma conflicts_true k t :
  conflicts k t = true ↔ ∃ s, k = Some s ∧ Some s ∈ keys t.
Proof.
  unfold conflicts, keys. destruct k as [s|].
  - rewrite bool_decide_eq_true. naive_solver.
  - naive_solver.
Qed.

Lemma conflicts_false k t :
  conflicts k t = false ↔ k = None ∨ k ∉ keys t.
Proof.
  unfold conflicts, keys. destruct k as [s|].
  - rewrite bool_decide_eq_false. naive_solver.
  - naive_solver.
Qed.

Lemma rows_insert_or_ignore k c t :
  rows (insert_or_ignore eng k c t) =
    if conflicts k t then rows t else rows t ++ [Row (next_rowid t) k c].
Proof. unfold insert_or_ignore. by destruct (conflicts k t). Qed.

Lemma keys_insert_or_ignore s c t :
  Some s ∈ keys (insert_or_ignore eng (Some s) c t).
Proof.
  unfold keys. rewrite rows_insert_or_ignore.
  destruct (conflicts (Some s) t) eqn:E.
  - apply conflicts_true in E as (? & [= <-] & ?). done.
  - rewrite fmap_app. set_solver.
Qed.

Lemma keys_insert_or_ignore_mono k k' c t :
  k' ∈ keys t → k' ∈ keys (insert_or_ignore eng k c t).
Proof.
  unfold keys. rewrite rows_insert_or_ignore.
  destruct (conflicts k t); [done|]. rewrite fmap_app. set_solver.
Qed.

Lemma unique_keys_insert_or_ignore k c t :
  unique_keys t → unique_keys (insert_or_ignore eng k c t).
Proof.
  unfold unique_keys. rewrite rows_insert_or_ignore.
  destruct (conflicts k t) eqn:E; [done|]. intros Hnd.
  rewrite omap_app. apply NoDup_app. split; [done|].
  destruct k as [s|]; simpl; [|split; [set_solver | constructor]].
  split; [|apply NoDup_singleton].
  intros x Hx ->%list_elem_of_singleton.
  apply conflicts_false in E as [?|E]; [done|]. apply E.
  apply list_elem_of_omap in Hx as (r & Hr & Hs).
  unfold keys. apply list_elem_of_fmap. exists r. by rewrite Hs.
Qed.

Lemma insert_all_cons k c kcs t :
  insert_all eng ((k, c) :: kcs) t = insert_all eng kcs (insert_or_ignore eng k c t).
Proof. reflexivity. Qed.

(** Rows inserted by a run of statements are appended; each carries a pair
    of the run, under a key that the table did not hold before. *)
Lemma rows_insert_all kcs t :
  ∃ new, rows (insert_all eng kcs t) = rows t ++ new
         ∧ Forall (λ r, (spacex_id r, cols r) ∈ kcs
                        ∧ conflicts (spacex_id r) t = false) new.
Proof.
  revert t. induction kcs as [|[k c] kcs IH]; intros t.
  - exists []. by rewrite app_nil_r.
  - destruct (IH (insert_or_ignore eng k c t)) as (new & Hrows & Hnew).
    rewrite insert_all_cons, Hrows, rows_insert_or_ignore.
    assert (Hmono : ∀ r, conflicts (spacex_id r) (insert_or_ignore eng k c t) = false
                         → conflicts (spacex_id r) t = false).
    { intros r. rewrite !conflicts_false. intros [?|Hn]; [by left|right].
      intros ?. by apply Hn, keys_insert_or_ignore_mono. }
    destruct (conflicts k t) eqn:E.
    + exists new. split; [done|].
      eapply Forall_impl; [exact Hnew|]. intros r [? ?]. split; [set_solver|auto].
    + exists (Row (next_rowid t) k c :: new). split; [by rewrite <- app_assoc|].
      constructor; [simpl; split; [set_solver|done]|].
      eapply Forall_impl; [exact Hnew|]. intros r [? ?]. split; [set_solver|auto].
Qed.

Lemma keys_insert_all_mono kcs k t :
  k ∈ keys t → k ∈ keys (insert_all eng kcs t).
Proof.
  revert t. induction kcs as [|[k' c] kcs IH]; intros t Hk; [done|].
  rewrite insert_all_cons. apply IH. by apply keys_insert_or_ignore_mono.
Qed.

(** After the run, every text key of the run is in the table. *)
Lemma keys_insert_all kcs s c t :
  (Some s, c) ∈ kcs → Some s ∈ keys (insert_all eng kcs t).
Proof.
  revert t. induction kcs as [|[k' c'] kcs IH]; intros t Hin.
  - by apply elem_of_nil in Hin.
  - rewrite insert_all_cons.
    apply elem_of_cons in Hin as [[= <- <-]|Hin]; [|by apply IH].
    apply keys_insert_all_mono, keys_insert_or_ignore.
Qed.

Lemma unique_keys_insert_all kcs t :
  unique_keys t → unique_keys (insert_all eng kcs t).
Proof.
  revert t. induction kcs as [|[k c] kcs IH]; intros t Ht; [done|].
  rewrite insert_all_cons. apply IH. by apply unique_keys_insert_or_ignore.
Qed.

(** A run whose keys are all held already inserts nothing. *)
Lemma rows_insert_all_present kcs t :
  Forall (λ kc, conflicts kc.1 t = true) kcs →
  rows (insert_all eng kcs t) = rows t.
Proof.
  revert t. induction kcs as [|[k c] kcs IH]; intros t Hall; [done|].
  apply Forall_cons in Hall as [Hk Hall]. simpl in Hk.
  assert (Hr : rows (insert_or_ignore eng k c t) = rows t)
    by (by rewrite rows_insert_or_ignore, Hk).
  rewrite insert_all_cons, IH; [done|].
  eapply Forall_impl; [exact Hall|]. intros [k' c'] Hc. simpl in *.
  unfold conflicts, keys in *. by rewrite Hr.
Qed.
End Tables.

(** ** Loops of statements on the connection *)

Section Statements.
Variable eng : engine.
Context {A X : Type}.
Variable params : A → outcome X.
Variable stmt : A → X → database → database.

Lemma for_each_ext (f g : A → M unit) l :
  (∀ x, f x = g x) → for_each f l = for_each g l.
Proof. intros E. induction l as [|x l IH]; simpl; [done|]. by rewrite E, IH. Qed.

Lemma for_each_cons (f : A → M unit) x l s :
  for_each f (x :: l) s =
    match f x s with
    | (Ok _, s') => for_each f l s'
    | (Raise e, s') => (Raise e, s')
    end.
Proof. reflexivity. Qed.

(** With no fault of the engine and parameters that bind, the loop runs
    every statement. *)
Lemma for_each_execute_total l s w :
  session s = Some w →
  (∀ n, fault eng n = false) →
  Forall (λ x, is_ok (params x) = true) l →
  for_each (λ x, execute eng (params x) (stmt x)) l s =
    (Ok tt, State (disk s) (Some (run_all params stmt l w))
                  (calls s + length l)%nat (trace s)).
Proof.
  intros Hs Hf. revert s w Hs.
  induction l as [|x l IH]; intros s w Hs Hall.
  - simpl. destruct s; simpl in *. rewrite Hs. do 3 f_equal. lia.
  - apply Forall_cons in Hall as [Hx Hall].
    rewrite for_each_cons. unfold execute at 1. rewrite Hs, Hf.
    destruct (params x) as [p|e] eqn:Ep; [|done].
    erewrite IH; [|done..]. simpl. unfold run_all. simpl. rewrite Ep.
    do 3 f_equal. lia.
Qed.

(** A loop that completes has run every statement. *)
Lemma for_each_execute_Ok l s s' w :
  session s = Some w →
  for_each (λ x, execute eng (params x) (stmt x)) l s = (Ok tt, s') →
  s' = State (disk s) (Some (run_all params stmt l w))
             (calls s + length l)%nat (trace s)
  ∧ Forall (λ x, is_ok (params x) = true) l.
Proof.
  revert s w. induction l as [|x l IH]; intros s w Hs Hrun.
  - simpl in Hrun. injection Hrun as <-. split; [|done].
    destruct s; simpl in *. rewrite Hs. do 2 f_equal. lia.
  - rewrite for_each_cons in Hrun. unfold execute at 1 in Hrun. rewrite Hs in Hrun.
    destruct (params x) as [p|e] eqn:Ep; [|done].
    destruct (fault eng (calls s)); [done|].
    eapply IH in Hrun as [-> Hall]; [|done]. simpl. split.
    + unfold run_all. simpl. rewrite Ep. do 2 f_equal. lia.
    + constructor; [by rewrite Ep|done].
Qed.

(** Whatever its outcome, the loop leaves the database file and the trace
    alone, and keeps every property of the connection's view that its
    statements keep. *)
Lemma for_each_execute_inv (P : database → Prop) l s w :
  (∀ x p w, x ∈ l → params x = Ok p → P w → P (stmt x p w)) →
  session s = Some w → P w →
  ∃ w' n, (for_each (λ x, execute eng (params x) (stmt x)) l s).2 =
            State (disk s) (Some w') n (trace s) ∧ P w'.
Proof.
  revert s w. induction l as [|x l IH]; intros s w Hstep Hs HP.
  - exists w, (calls s). destruct s; simpl in *. by rewrite Hs.
  - rewrite for_each_cons. unfold execute at 1. rewrite Hs.
    destruct (params x) as [p|e] eqn:Ep.
    2:{ exists w, (calls s). destruct s; simpl in *. by rewrite Hs. }
    destruct (fault eng (calls s)).
    { exists w, (S (calls s)). done. }
    edestruct (IH (State (disk s) (Some (stmt x p w)) (S (calls s)) (trace s)))
      as (w' & n & E & HP'); [| done | |].
    + intros y q v Hy. apply Hstep. by right.
    + apply (Hstep x p w); [by left|done..].
    + exists w', n. done.
Qed.

Lemma for_each_execute_total_open l d w n t :
  (∀ n, fault eng n = false) →
  Forall (λ x, is_ok (params x) = true) l →
  for_each (λ x, execute eng (params x) (stmt x)) l (State d (Some w) n t) =
    (Ok tt, State d (Some (run_all params stmt l w)) (n + length l)%nat t).
Proof. intros Hf Hall. by rewrite (for_each_execute_total l _ w). Qed.

Lemma for_each_execute_Ok_open l d w n t s' :
  for_each (λ x, execute eng (params x) (stmt x)) l (State d (Some w) n t)
    = (Ok tt, s') →
  s' = State d (Some (run_all params stmt l w)) (n + length l)%nat t
  ∧ Forall (λ x, is_ok (params x) = true) l.
Proof. intros Hrun. by apply (for_each_execute_Ok l _ _ w) in Hrun. Qed.

Lemma for_each_execute_closed l s :
  session s = None →
  (for_each (λ x, execute eng (params x) (stmt x)) l s).2 = s.
Proof.
  intros Hs. destruct l as [|x l]; [done|].
  rewrite for_each_cons. unfold execute at 1. by rewrite Hs.
Qed.
End Statements.

(** ** The key mapping read back from a table *)

Section IdMap.
Context {C : Type}.
Implicit Types (t : table C) (k : option string) (r : row C).

Lemma id_map_snoc (l : list (row C)) r s :
  id_map (Table (l ++ [r]) s) = <[spacex_id r := rowid r]> (id_map (Table l s)).
Proof. unfold id_map. simpl. by rewrite foldl_snoc. Qed.

Lemma id_map_lookup_Some t k i :
  id_map t !! k = Some i → ∃ r, r ∈ rows t ∧ spacex_id r = k ∧ rowid r = i.
Proof.
  destruct t as [l s]. simpl. revert i.
  induction l as [|r l IH] using rev_ind; intros i.
  - unfold id_map. simpl. by rewrite lookup_empty.
  - rewrite id_map_snoc. destruct (decide (spacex_id r = k)) as [<-|Hne].
    + rewrite lookup_insert_eq. intros [= <-]. exists r. set_solver.
    + rewrite lookup_insert_ne by done. intros (r' & ? & ? & ?)%IH.
      exists r'. set_solver.
Qed.

Lemma id_map_lookup_None t k :
  id_map t !! k = None ↔ k ∉ keys t.
Proof.
  destruct t as [l s]. unfold keys. simpl.
  induction l as [|r l IH] using rev_ind.
  - unfold id_map. simpl. rewrite lookup_empty. set_solver.
  - rewrite id_map_snoc, fmap_app. simpl.
    destruct (decide (spacex_id r = k)) as [<-|Hne].
    + rewrite lookup_insert_eq. set_solver.
    + rewrite lookup_insert_ne by done. set_solver.
Qed.

(** Under the UNIQUE constraint the mapping sends the text key of every
    row to the surrogate key of that row. *)
Lemma id_map_lookup_row t r v :
  unique_keys t → r ∈ rows t → spacex_id r = Some v →
  id_map t !! Some v = Some (rowid r).
Proof.
  destruct t as [l s]. unfold unique_keys. simpl.
  induction l as [|r' l IH] using rev_ind; intros Hnd Hin Hv.
  - by apply elem_of_nil in Hin.
  - rewrite id_map_snoc. rewrite omap_app in Hnd.
    apply NoDup_app in Hnd as (Hl & Hdisj & _).
    apply elem_of_app in Hin as [Hin | ->%list_elem_of_singleton].
    + rewrite lookup_insert_ne; [by apply IH|].
      intros Hk. apply (Hdisj v).
      * apply list_elem_of_omap. by exists r.
      * simpl. rewrite Hk. set_solver.
    + by rewrite Hv, lookup_insert_eq.
Qed.
End IdMap.

(** ** The three INSERT statements as runs on their tables *)

Section Inserts.
Variable eng : engine.
Context {A : Type}.
Variable key : A → option string.

Lemma run_all_insert_rocket (params : A → outcome rockets_cols) l w :
  run_all params (λ x, insert_rocket eng (key x)) l w =
    Database (insert_all eng (bound key params l) (rockets w))
             (launchpads w) (launches w).
Proof.
  revert w. induction l as [|x l IH]; intros w; [by destruct w|].
  unfold run_all, bound in *. simpl. destruct (params x); simpl; by rewrite IH.
Qed.

Lemma run_all_insert_launchpad (params : A → outcome launchpads_cols) l w :
  run_all params (λ x, insert_launchpad eng (key x)) l w =
    Database (rockets w)
             (insert_all eng (bound key params l) (launchpads w)) (launches w).
Proof.
  revert w. induction l as [|x l IH]; intros w; [by destruct w|].
  unfold run_all, bound in *. simpl. destruct (params x); simpl; by rewrite IH.
Qed.

Lemma run_all_insert_launch (params : A → outcome launches_cols) l w :
  run_all params (λ x, insert_launch eng (key x)) l w =
    Database (rockets w) (launchpads w)
             (insert_all eng (bound key params l) (launches w)).
Proof.
  revert w. induction l as [|x l IH]; intros w; [by destruct w|].
  unfold run_all, bound in *. simpl. destruct (params x); simpl; by rewrite IH.
Qed.

(** When every item binds, the run has one statement per item. *)
Lemma bound_Forall2 {X : Type} (params : A → outcome X) l :
  Forall (λ x, is_ok (params x) = true) l →
  Forall2 (λ x kc, kc.1 = key x ∧ params x = Ok kc.2) l (bound key params l).
Proof.
  induction 1 as [|x l Hx _ IH]; [constructor|].
  unfold bound in *. simpl. destruct (params x) as [p|e] eqn:Ep; [|done].
  constructor; [by rewrite Ep|exact IH].
Qed.
End Inserts.

(** ** The rows that a loop of statements stores *)

Section Inserted.
Variable eng : engine.
Context {A X : Type}.
Variable key : A → option string.
Variable params : A → outcome X.

(** Which items are inserted depends on the text keys held only. *)
Lemma inserted_ext (held held' : list (option string)) (l : list A) :
  (∀ k : string, Some k ∈ held ↔ Some k ∈ held') →
  inserted key held l = inserted key held' l.
Proof.
  revert held held'. induction l as [|x l IH]; intros held held' E; [done|].
  simpl. destruct (key x) as [k|]; [|f_equal; by apply IH].
  rewrite (bool_decide_ext _ _ (E k)). case_bool_decide; [by apply IH|].
  f_equal. apply IH. intros k'. rewrite !elem_of_cons. by rewrite E.
Qed.

(** An item is inserted exactly when its key is NULL, or when neither the
    table nor an earlier item of the loop holds its key. *)
Lemma elem_of_inserted (held : list (option string)) (l : list A) x :
  x ∈ inserted key held l ↔
    ∃ pre post, l = pre ++ x :: post
      ∧ (key x = None ∨ ((key x ∉ held) ∧ (key x ∉ key <$> pre))).
Proof.
  revert held. induction l as [|y l IH]; intros held.
  { split; [by intros ?%elem_of_nil|]. intros (pre & post & E & _).
    by destruct pre. }
  assert (Hsplit : ∀ P : list A → Prop,
    (∃ pre post, y :: l = pre ++ x :: post ∧ P pre) ↔
      (x = y ∧ P []) ∨ ∃ pre post, l = pre ++ x :: post ∧ P (y :: pre)).
  { intros P. split.
    - intros ([|z pre] & post & E & HP); injection E as -> ->; [by left|right].
      by exists pre, post.
    - intros [[-> HP]|(pre & post & -> & HP)].
      + by exists [], l.
      + by exists (y :: pre), post. }
  rewrite (Hsplit (λ pre, key x = None ∨ ((key x ∉ held) ∧ (key x ∉ key <$> pre)))).
  csimpl. destruct (key y) as [k|] eqn:Ey.
  - case_bool_decide as Hk.
    + rewrite IH. split.
      * intros (pre & post & -> & Hc). right. exists pre, post. split; [done|].
        destruct Hc as [?|[Hh Hp]]; [by left|right]. split; [done|].
        intros [E|?]%elem_of_cons; [|done]. by rewrite E in Hh.
      * intros [[-> [E|[Hh _]]]|(pre & post & -> & Hc)].
        -- congruence.
        -- by rewrite Ey in Hh.
        -- exists pre, post. split; [done|].
           destruct Hc as [?|[Hh Hp]]; [by left|right]. split; [done|].
           intros ?. apply Hp. by right.
    + rewrite elem_of_cons, IH. split.
      * intros [->|(pre & post & -> & Hc)].
        -- left. split; [done|]. right. rewrite Ey.
           split; [done|by intros ?%elem_of_nil].
        -- right. exists pre, post. split; [done|].
           destruct Hc as [?|[Hh Hp]]; [by left|right].
           set_solver.
      * intros [[-> _]|(pre & post & -> & Hc)]; [by left|right].
        exists pre, post. split; [done|].
        destruct Hc as [?|[Hh Hp]]; [by left|right].
        set_solver.
  - rewrite elem_of_cons, IH. split.
    + intros [->|(pre & post & -> & Hc)]; [left; split; [done|by left]|right].
      exists pre, post. split; [done|].
      destruct (key x) as [kx|] eqn:Ex; [right|by left].
      destruct Hc as [?|[Hh Hp]]; [done|]. split; [done|].
      by intros [E|?]%elem_of_cons.
    + intros [[-> _]|(pre & post & -> & Hc)]; [by left|right].
      exists pre, post. split; [done|].
      destruct Hc as [?|[Hh Hp]]; [by left|right]. split; [done|].
      intros ?. apply Hp. by right.
Qed.

(** A loop whose items all bind appends one row per inserted item, in
    order, holding the key and the bound columns of that item, and changes
    no row that was there. *)
Lemma rows_insert_all_inserted (l : list A) (t : table X) :
  Forall (λ x, is_ok (params x) = true) l →
  ∃ new,
    rows (insert_all eng (bound key params l) t) = rows t ++ new
    ∧ Forall2 (λ x r, spacex_id r = key x ∧ params x = Ok (cols r))
        (inserted key (keys t) l) new.
Proof.
  intros Hall. revert t. induction Hall as [|x l Hx _ IH]; intros t.
  { exists []. split; [by rewrite app_nil_r|constructor]. }
  destruct (params x) as [p|] eqn:Ep; [|done].
  assert (Hb : bound key params (x :: l) = (key x, p) :: bound key params l).
  { unfold bound. simpl. by rewrite Ep. }
  rewrite Hb, insert_all_cons.
  destruct (IH (insert_or_ignore eng (key x) p t)) as (new & Hrows & Hnew).
  rewrite Hrows, rows_insert_or_ignore.
  assert (Hkeys : keys (insert_or_ignore eng (key x) p t) =
            if conflicts (key x) t then keys t else keys t ++ [key x]).
  { unfold keys. rewrite rows_insert_or_ignore.
    destruct (conflicts (key x) t); [done|]. by rewrite fmap_app. }
  rewrite Hkeys in Hnew. simpl (inserted _ _ (x :: l)).
  destruct (key x) as [k|] eqn:Ek.
  - cbn [conflicts] in *. fold (keys t) in *. case_bool_decide as Hk.
    + by exists new.
    + exists (Row (next_rowid t) (Some k) p :: new).
      split; [by rewrite <- app_assoc|].
      constructor; [by rewrite Ep|].
      rewrite (inserted_ext (Some k :: keys t) (keys t ++ [Some k])); [done|].
      intros k'. set_solver.
  - cbn [conflicts] in *. exists (Row (next_rowid t) None p :: new).
    split; [by rewrite <- app_assoc|].
    constructor; [by rewrite Ep|].
    rewrite (inserted_ext (keys t) (keys t ++ [None])); [done|].
    intros k'. set_solver.
Qed.
Lemma appended_insert_all (l : list A) (t : table X) :
  Forall (λ x, is_ok (params x) = true) l →
  appended key params l t (insert_all eng (bound key params l) t).
Proof. apply rows_insert_all_inserted. Qed.
End Inserted.

(** ** Invariants of computations on the connection *)

Section Keeps.
Variable eng : engine.
Variables Pd Pw : database → Prop.
Hypothesis commit_ok : ∀ w, Pw w → Pd w.

Lemma bind_run {A B : Type} (m : M A) (f : A → M B) s :
  (m ≫= f) s =
    match m s with
    | (Ok a, s') => f a s'
    | (Raise e, s') => (Raise e, s')
    end.
Proof. reflexivity. Qed.

Lemma keeps_bind {A B : Type} (m : M A) (f : A → M B) :
  keeps Pd Pw m → (∀ a, keeps Pd Pw (f a)) → keeps Pd Pw (m ≫= f).
Proof.
  intros Hm Hf s Hs. rewrite bind_run. specialize (Hm s Hs).
  destruct (m s) as [[a|e] s']; simpl in *; [by apply Hf|done].
Qed.

Lemma keeps_ret {A : Type} (a : A) : keeps Pd Pw (mret a).
Proof. by intros s Hs. Qed.

Lemma keeps_lift {A : Type} (o : outcome A) : keeps Pd Pw (lift o).
Proof. by intros s Hs. Qed.

Lemma keeps_cursor : keeps Pd Pw cursor.
Proof. intros s Hs. unfold cursor. by destruct (session s). Qed.

Lemma keeps_execute {X : Type} (params : outcome X) stmt :
  (∀ x w, params = Ok x → Pw w → Pw (stmt x w)) →
  keeps Pd Pw (execute eng params stmt).
Proof.
  intros Hstmt s Hs. unfold execute.
  destruct (session s) as [w|] eqn:Es; [|exact Hs].
  destruct params as [x|e]; [|exact Hs].
  destruct Hs as [Hd Hw].
  destruct (fault eng (calls s)); split; simpl; try done.
  - intros ? [= <-]. auto.
  - intros ? [= <-]. auto.
Qed.

Lemma keeps_query {X : Type} (select : database → X) :
  keeps Pd Pw (query eng select).
Proof.
  intros s Hs. unfold query.
  destruct (session s) as [w|] eqn:Es; [|exact Hs].
  destruct Hs as [Hd Hw].
  destruct (fault eng (calls s)); split; simpl; try done.
  - intros ? [= <-]. auto.
  - intros ? [= <-]. auto.
Qed.

Lemma keeps_commit : keeps Pd Pw (commit eng).
Proof.
  intros s Hs. unfold commit.
  destruct (session s) as [w|] eqn:Es; [|exact Hs].
  destruct Hs as [Hd Hw].
  destruct (fault eng (calls s)); split; simpl; auto.
  - intros ? [= <-]. auto.
  - intros ? [= <-]. auto.
Qed.

Lemma keeps_for_each {A : Type} (body : A → M unit) l :
  (∀ x, x ∈ l → keeps Pd Pw (body x)) → keeps Pd Pw (for_each body l).
Proof.
  induction l as [|x l IH]; intros Hbody; [apply keeps_ret|].
  simpl. apply keeps_bind; [apply Hbody; by left|].
  intros _. apply IH. intros y Hy. apply Hbody. by right.
Qed.

Lemma keeps_create_schema : keeps Pd Pw (create_schema eng).
Proof.
  unfold create_schema, create_table.
  repeat (apply keeps_bind; [|intros _]);
    auto using keeps_cursor, keeps_commit, keeps_execute.
Qed.

Lemma keeps_close : keeps Pd Pw close.
Proof. intros s [Hd Hw]. by split. Qed.

Lemma keeps_try_finally {A : Type} (body : M A) handler :
  keeps Pd Pw body → keeps Pd Pw handler → keeps Pd Pw (try_finally body handler).
Proof.
  intros Hb Hh s Hs. unfold try_finally. specialize (Hb s Hs).
  destruct (body s) as [r s1]. specialize (Hh s1 Hb).
  by destruct (handler s1) as [[[]|e] s2].
Qed.
End Keeps.

Ltac quiet_step :=
  intros ?; repeat case_match; simpl; (split; [reflexivity | split; congruence]).

Section Quiet.
Variable eng : engine.

Lemma quiet_bind {A B : Type} (m : M A) (f : A → M B) :
  quiet m → (∀ a, quiet (f a)) → quiet (m ≫= f).
Proof.
  intros Hm Hf s. rewrite bind_run. specialize (Hm s).
  destruct (m s) as [[a|e] s']; simpl in *; [|done].
  destruct (Hf a s') as [-> ->]. done.
Qed.

Lemma quiet_ret {A : Type} (a : A) : quiet (mret a : M A).
Proof. by intros s. Qed.

Lemma quiet_cursor : quiet cursor.
Proof. unfold cursor. quiet_step. Qed.

Lemma quiet_execute {X : Type} (params : outcome X) stmt :
  quiet (execute eng params stmt).
Proof.
  unfold execute. quiet_step.
Qed.

Lemma quiet_query {X : Type} (select : database → X) : quiet (query eng select).
Proof.
  unfold query. quiet_step.
Qed.

Lemma quiet_commit : quiet (commit eng).
Proof.
  unfold commit. quiet_step.
Qed.

Lemma quiet_for_each {A : Type} (body : A → M unit) l :
  (∀ x, quiet (body x)) → quiet (for_each body l).
Proof.
  intros Hbody. induction l as [|x l IH]; [apply quiet_ret|].
  simpl. apply quiet_bind; [apply Hbody|done].
Qed.

Lemma quiet_create_schema : quiet (create_schema eng).
Proof.
  unfold create_schema, create_table.
  repeat (apply quiet_bind; [|intros _]);
    auto using quiet_cursor, quiet_commit, quiet_execute.
Qed.

Lemma quiet_load_dimension_tables rockets_map launchpads_map :
  quiet (load_dimension_tables eng rockets_map launchpads_map).
Proof.
  unfold load_dimension_tables.
  repeat (apply quiet_bind; [|intros ?]);
    auto using quiet_cursor, quiet_commit, quiet_query, quiet_ret.
  - apply quiet_for_each. intros [? ?]. apply quiet_execute.
  - apply quiet_for_each. intros [? ?]. apply quiet_execute.
Qed.

Lemma quiet_load_launches launches rocket_id_map launchpad_id_map :
  quiet (load_launches eng launches rocket_id_map launchpad_id_map).
Proof.
  unfold load_launches.
  repeat (apply quiet_bind; [|intros ?]);
    auto using quiet_cursor, quiet_commit.
  apply quiet_for_each. intros ?. apply quiet_execute.
Qed.
End Quiet.

(** ** Identifier extraction *)

Lemma truthy_str_Some v : truthy_str (Some v) = true ↔ v ≠ "".
Proof.
  simpl. rewrite negb_true_iff. split.
  - intros E ->. by rewrite String.eqb_refl in E.
  - intros Hne. by apply String.eqb_neq.
Qed.

Lemma get_Some {A : Type} (f : field A) (a : A) : get f = Some a ↔ f = Has a.
Proof. destruct f; simpl; split; congruence. Qed.

Lemma get_None {A : Type} (f : field A) : get f = None ↔ f = Missing ∨ f = Null.
Proof. destruct f; simpl; split; try tauto; try congruence; intros [|]; congruence. Qed.

Lemma elem_of_referenced f launches v :
  v ∈ referenced f launches ↔ v ≠ "" ∧ ∃ l, l ∈ launches ∧ f l = Has v.
Proof.
  unfold referenced. rewrite elem_of_list_to_set, list_elem_of_filter, list_elem_of_omap.
  by setoid_rewrite get_Some.
Qed.

Lemma referenced_cons f l launches :
  referenced f (l :: launches) =
    (if truthy_str (get (f l)) then set_add (get (f l)) ∅ else ∅)
    ∪ referenced f launches.
Proof.
  apply set_eq. intros v. rewrite elem_of_union, !elem_of_referenced.
  setoid_rewrite elem_of_cons.
  destruct (get (f l)) as [u|] eqn:Eg.
  - apply get_Some in Eg. destruct (truthy_str (Some u)) eqn:Et.
    + apply truthy_str_Some in Et. simpl. rewrite elem_of_union, elem_of_singleton.
      split.
      * intros [Hne (l' & [->|Hl] & Hv)]; [left; left; congruence|right; eauto].
      * intros [[->|[]%not_elem_of_empty]|[Hne (l' & Hl & Hv)]]; eauto 6.
    + assert (u = "") as ->.
      { destruct (decide (u = "")) as [|Hne]; [done|].
        apply truthy_str_Some in Hne. congruence. }
      split.
      * intros [Hne (l' & [->|Hl] & Hv)]; [congruence|right; eauto].
      * intros [[]%not_elem_of_empty|[Hne (l' & Hl & Hv)]]; eauto 6.
  - simpl. split.
    + intros [Hne (l' & [->|Hl] & Hv)]; [|right; eauto].
      apply get_Some in Hv. congruence.
    + intros [[]%not_elem_of_empty|[Hne (l' & Hl & Hv)]]; eauto 6.
Qed.

Lemma extract_unique_ids_referenced launches :
  extract_unique_ids launches =
    (referenced launch_rocket launches, referenced launch_launchpad launches).
Proof.
  unfold extract_unique_ids.
  enough (∀ R P, foldl
      (λ '(rocket_ids, launchpad_ids) launch,
         let rid := get (launch_rocket launch) in
         let pid := get (launch_launchpad launch) in
         (if truthy_str rid then set_add rid rocket_ids else rocket_ids,
          if truthy_str pid then set_add pid launchpad_ids else launchpad_ids))
      (R, P) launches
    = (R ∪ referenced launch_rocket launches,
       P ∪ referenced launch_launchpad launches)) as ->.
  { f_equal; set_solver. }
  induction launches as [|l launches IH]; intros R P; simpl.
  - f_equal; set_solver.
  - rewrite IH, !referenced_cons. clear IH.
    f_equal.
    + destruct (truthy_str (get (launch_rocket l))); [|set_solver].
      destruct (get (launch_rocket l)); simpl; set_solver.
    + destruct (truthy_str (get (launch_launchpad l))); [|set_solver].
      destruct (get (launch_launchpad l)); simpl; set_solver.
Qed.

(** C5.  For every list of launches, [extract_unique_ids] returns, per
    reference key (rocket, launchpad), exactly the set of the strings that
    some launch holds under that key, present, not null and not empty.  The
    result does not depend on the order of the launches; an identifier that
    several launches reference is one element of the set, and a launch
    seen again adds nothing.  On [{rocket: "r1", launchpad: null}] and
    [{rocket: "r1", launchpad: "p1"}] the result is [{"r1"}] and
    [{"p1"}]. *)
Theorem extract_unique_ids_exact (launches : list launch) :
  (∀ v, v ∈ (extract_unique_ids launches).1 ↔
        v ≠ "" ∧ ∃ l, l ∈ launches ∧ launch_rocket l = Has v)
  ∧ (∀ v, v ∈ (extract_unique_ids launches).2 ↔
          v ≠ "" ∧ ∃ l, l ∈ launches ∧ launch_launchpad l = Has v)
  ∧ (∀ launches', launches' ≡ₚ launches →
       extract_unique_ids launches' = extract_unique_ids launches)
  ∧ (∀ l, l ∈ launches →
       extract_unique_ids (l :: launches) = extract_unique_ids launches)
  ∧ NoDup (elements (extract_unique_ids launches).1)
  ∧ NoDup (elements (extract_unique_ids launches).2)
  ∧ (∀ l1 l2,
       launch_rocket l1 = Has "r1" → launch_launchpad l1 = Null →
       launch_rocket l2 = Has "r1" → launch_launchpad l2 = Has "p1" →
       extract_unique_ids [l1; l2] = ({[ "r1" ]}, {[ "p1" ]})).
Proof.
  rewrite extract_unique_ids_referenced. simpl.
  split_and!; try apply NoDup_elements.
  - apply elem_of_referenced.
  - apply elem_of_referenced.
  - intros launches' Hp. rewrite extract_unique_ids_referenced.
    f_equal; apply set_eq; intros v; rewrite !elem_of_referenced;
      by setoid_rewrite Hp.
  - intros l Hl. rewrite extract_unique_ids_referenced.
    f_equal; apply set_eq; intros v; rewrite !elem_of_referenced; set_solver.
  - intros l1 l2 Hr1 Hp1 Hr2 Hp2. rewrite extract_unique_ids_referenced.
    rewrite !referenced_cons, Hr1, Hp1, Hr2, Hp2. simpl.
    f_equal; apply set_eq; intros v; rewrite !elem_of_union, !elem_of_referenced;
      set_solver.
Qed.

(** ** The driver, stage by stage *)

Lemma run_etl_run net h eng s :
  run_etl net h eng s =
    match extract_all_launches net with
    | Raise e => (Raise e, s)
    | Ok launches =>
      match fetch_rockets net h (extract_unique_ids launches).1 with
      | Raise e => (Raise e, s)
      | Ok rockets_map =>
        match fetch_launchpads net h (extract_unique_ids launches).2 with
        | Raise e => (Raise e, s)
        | Ok launchpads_map =>
          match save_raw_json h "launches" launches with
          | Raise e => (Raise e, s)
          | Ok _ =>
            match save_raw_json h "rockets" rockets_map with
            | Raise e => (Raise e, s)
            | Ok _ =>
              match save_raw_json h "launchpads" launchpads_map with
              | Raise e => (Raise e, s)
              | Ok _ =>
                (get_connection h;;
                 try_finally (storage eng launches rockets_map launchpads_map) close) s
              end
            end
          end
        end
      end
    end.
Proof.
  unfold run_etl. rewrite bind_run. unfold lift at 1.
  destruct (extract_all_launches net) as [launches|e]; [|done].
  destruct (extract_unique_ids launches) as [R P]. simpl fst. simpl snd.
  rewrite bind_run. unfold lift at 1.
  destruct (fetch_rockets net h R) as [rockets_map|e]; [|done].
  rewrite bind_run. unfold lift at 1.
  destruct (fetch_launchpads net h P) as [launchpads_map|e]; [|done].
  rewrite bind_run. unfold lift at 1.
  destruct (save_raw_json h "launches" launches) as [[]|e]; [|done].
  rewrite bind_run. unfold lift at 1.
  destruct (save_raw_json h "rockets" rockets_map) as [[]|e]; [|done].
  rewrite bind_run. unfold lift at 1.
  destruct (save_raw_json h "launchpads" launchpads_map) as [[]|e]; [|done].
  reflexivity.
Qed.

Lemma quiet_storage eng launches rockets_map launchpads_map :
  quiet (storage eng launches rockets_map launchpads_map).
Proof.
  unfold storage. apply quiet_bind; [apply quiet_create_schema|intros _].
  apply quiet_bind; [apply quiet_load_dimension_tables|intros [? ?]].
  apply quiet_load_launches.
Qed.

(** Once the connection is open, the rest of the run closes it. *)
Lemma opened_then_closed h (body : M unit) s :
  connect_fails h = false → quiet body →
  let s' := ((get_connection h;; try_finally body close) s).2 in
  session s' = None ∧ trace s' = trace s ++ [Opened; Closed].
Proof.
  intros Hc Hq. rewrite bind_run. unfold get_connection. rewrite Hc.
  unfold try_finally.
  pose proof (Hq (State (disk s) (Some (disk s)) (calls s) (trace s ++ [Opened])))
    as [Ht _].
  destruct (body _) as [r s1]. simpl in *. rewrite Ht, <- app_assoc. done.
Qed.

Lemma not_opened h (body : M unit) s :
  connect_fails h = true →
  (get_connection h;; try_finally body close) s = (Raise OperationalError, s).
Proof. intros Hc. rewrite bind_run. unfold get_connection. by rewrite Hc. Qed.

(** C8.  In every run of [run_etl] the connection is closed when the run
    ends, and it is opened at most once: the run either opened it once and
    closed it once, or it raised before reaching the database and left the
    database file alone.  Whenever the extraction, the snapshots and
    [get_connection] succeed, the connection is opened exactly once and
    closed exactly once, whatever the engine does during schema creation,
    dimension loading and fact loading and whatever these raise. *)
Theorem connection_released net h eng d :
  let '(r, s') := run_etl net h eng (start d) in
  session s' = None
  ∧ (trace s' = [Opened; Closed]
     ∨ (trace s' = [] ∧ r ≠ Ok tt ∧ s' = start d))
  ∧ (∀ launches rockets_map launchpads_map,
       extract_all_launches net = Ok launches →
       fetch_rockets net h (extract_unique_ids launches).1
         = Ok rockets_map →
       fetch_launchpads net h (extract_unique_ids launches).2
         = Ok launchpads_map →
       (∀ path, write_fails h path = false) →
       connect_fails h = false →
       trace s' = [Opened; Closed]).
Proof.
  destruct (run_etl net h eng (start d)) as [r s'] eqn:Erun.
  rewrite run_etl_run in Erun.
  destruct (extract_all_launches net) as [launches|e] eqn:E1;
    [|injection Erun as <- <-; split_and!; [done|by right|intros; congruence]].
  destruct (fetch_rockets _ _ _) as [rockets_map|e] eqn:E2;
    [|injection Erun as <- <-; split_and!; [done|by right|intros; congruence]].
  destruct (fetch_launchpads _ _ _) as [launchpads_map|e] eqn:E3;
    [|injection Erun as <- <-; split_and!; [done|by right|intros; congruence]].
  unfold save_raw_json in Erun.
  destruct (write_fails h (RAW_DIR +:+ "/" +:+ "launches" +:+ ".json")) eqn:W1.
  { injection Erun as <- <-. split_and!; [done|by right|].
    intros ??? _ _ _ Hw. by rewrite Hw in W1. }
  destruct (write_fails h (RAW_DIR +:+ "/" +:+ "rockets" +:+ ".json")) eqn:W2.
  { injection Erun as <- <-. split_and!; [done|by right|].
    intros ??? _ _ _ Hw. by rewrite Hw in W2. }
  destruct (write_fails h (RAW_DIR +:+ "/" +:+ "launchpads" +:+ ".json")) eqn:W3.
  { injection Erun as <- <-. split_and!; [done|by right|].
    intros ??? _ _ _ Hw. by rewrite Hw in W3. }
  destruct (connect_fails h) eqn:Hc.
  - rewrite not_opened in Erun by done. injection Erun as <- <-.
    split_and!; [done|by right|]. intros ??? _ _ _ _ [=].
  - pose proof (opened_then_closed h
      (storage eng launches rockets_map launchpads_map) (start d) Hc
      (quiet_storage _ _ _ _)) as Hoc.
    rewrite Erun in Hoc. simpl in Hoc. destruct Hoc as [Hs Ht].
    split_and!; [done|by left|done].
Qed.

(** ** Fetch failures *)

Lemma get_json_run {A : Type} (http : string → response A) endpoint :
  get_json http endpoint =
    match http (BASE_URL +:+ "/" +:+ lstrip_slash endpoint) with
    | Body json => Ok json
    | Failed exc => Raise (SystemExit (BASE_URL +:+ "/" +:+ lstrip_slash endpoint) exc)
    end.
Proof. reflexivity. Qed.

(** A by-id request that fails stops the loop over the identifiers. *)
Lemma fetch_each_fails {V : Type} (http : string → response V) resource ids d x exc :
  x ∈ ids →
  http (BASE_URL +:+ "/" +:+ lstrip_slash (resource +:+ "/" +:+ x)) = Failed exc →
  ∃ url exc', fetch_each http resource ids d = Raise (SystemExit url exc').
Proof.
  intros Hx Hfail. revert d.
  induction ids as [|y ids IH]; intros d; [by apply elem_of_nil in Hx|].
  simpl. rewrite get_json_run.
  destruct (http (BASE_URL +:+ "/" +:+ lstrip_slash (resource +:+ "/" +:+ y)))
    as [exc'|json] eqn:Ey; simpl.
  - eauto.
  - apply elem_of_cons in Hx as [->|Hx]; [congruence|]. by apply IH.
Qed.

(** C7.  [extract_all_launches] raises [SystemExit] (the transport error)
    when the request for the collection fails, whether by a network failure,
    a timeout or an error status, and raises [ValueError] (the format error)
    when the payload is not a list.  Any failed fetch, of the collection or
    of one rocket or launchpad by identifier, makes [run_etl] raise, with
    nothing done past the fetches: no connection opened, no statement run,
    the database file as it was. *)
Theorem fetch_failure_is_fatal (net : remote) :
  (∀ exc, http_launches net (BASE_URL +:+ "/launches") = Failed exc →
     extract_all_launches net =
       Raise (SystemExit (BASE_URL +:+ "/launches") exc))
  ∧ (∀ json, http_launches net (BASE_URL +:+ "/launches") = Body json →
       (∀ items, json ≠ DArray items) →
       extract_all_launches net = Raise (ValueError "Unexpected launches payload"))
  ∧ (∀ items, http_launches net (BASE_URL +:+ "/launches") = Body (DArray items) →
       extract_all_launches net = Ok items)
  ∧ (∀ h eng d, host_ok h →
       (is_ok (extract_all_launches net) = false
        ∨ ∃ launches, extract_all_launches net = Ok launches
            ∧ ((∃ x exc, x ∈ (extract_unique_ids launches).1
                  ∧ http_rockets net (BASE_URL +:+ "/rockets/" +:+ x) = Failed exc)
               ∨ (∃ x exc, x ∈ (extract_unique_ids launches).2
                    ∧ http_launchpads net (BASE_URL +:+ "/launchpads/" +:+ x)
                      = Failed exc))) →
       ∃ e, run_etl net h eng (start d) = (Raise e, start d)
            ∧ ((∃ url exc, e = SystemExit url exc)
               ∨ e = ValueError "Unexpected launches payload")).
Proof.
  assert (Hextract : ∀ e, extract_all_launches net = Raise e →
            (∃ url exc, e = SystemExit url exc)
            ∨ e = ValueError "Unexpected launches payload").
  { intros e. unfold extract_all_launches. rewrite get_json_run.
    destruct (http_launches net _) as [exc|[]]; simpl; intros [= <-]; eauto. }
  split_and!.
  - intros exc Hf. unfold extract_all_launches. rewrite get_json_run.
    change (lstrip_slash "launches") with "launches".
    change (BASE_URL +:+ "/" +:+ "launches") with (BASE_URL +:+ "/launches").
    by rewrite Hf.
  - intros json Hb Hn. unfold extract_all_launches. rewrite get_json_run.
    change (lstrip_slash "launches") with "launches".
    change (BASE_URL +:+ "/" +:+ "launches") with (BASE_URL +:+ "/launches").
    rewrite Hb. simpl. destruct json; try done. by destruct (Hn items).
  - intros items Hb. unfold extract_all_launches. rewrite get_json_run.
    change (lstrip_slash "launches") with "launches".
    change (BASE_URL +:+ "/" +:+ "launches") with (BASE_URL +:+ "/launches").
    by rewrite Hb.
  - intros h eng d Hh Hfail. rewrite run_etl_run.
    destruct Hfail as [Hf|(launches & -> & Hf)].
    { destruct (extract_all_launches net) as [|e] eqn:E; [done|]. eauto. }
    destruct Hf as [(x & exc & Hx & Hf)|(x & exc & Hx & Hf)].
    + destruct (fetch_each_fails (http_rockets net) "rockets"
                  (set_order h (extract_unique_ids launches).1) [] x exc)
        as (url & exc' & E); [by rewrite (Hh _), elem_of_elements|exact Hf|].
      unfold fetch_rockets. rewrite E. eauto 6.
    + destruct (fetch_rockets _ _ _) as [rockets_map|e] eqn:E2.
      2:{ unfold fetch_rockets in E2. exists e. split; [done|].
          left. revert E2. generalize (@nil (string * rocket)).
          induction (set_order h (extract_unique_ids launches).1) as [|y ids IH];
            intros d0; simpl; [done|].
          rewrite get_json_run. destruct (http_rockets net _); simpl; [|by eauto].
          intros [= <-]. eauto. }
      destruct (fetch_each_fails (http_launchpads net) "launchpads"
                  (set_order h (extract_unique_ids launches).2) [] x exc)
        as (url & exc' & E); [by rewrite (Hh _), elem_of_elements|exact Hf|].
      unfold fetch_launchpads. rewrite E. eauto 6.
Qed.

(** ** What the loaders keep *)

Section Loaders.
Variable eng : engine.
Variables Pd Pw : database → Prop.
Hypothesis commit_ok : ∀ w, Pw w → Pd w.

Lemma keeps_load_dimension_tables rockets_map launchpads_map :
  (∀ k r c w, (k, r) ∈ rockets_map → Pw w → Pw (insert_rocket eng (Some k) c w)) →
  (∀ k p c w, (k, p) ∈ launchpads_map → Pw w → Pw (insert_launchpad eng (Some k) c w)) →
  keeps Pd Pw (load_dimension_tables eng rockets_map launchpads_map).
Proof.
  intros Hr Hp. unfold load_dimension_tables.
  repeat (apply keeps_bind; [|intros ?]);
    auto using keeps_cursor, keeps_commit, keeps_query, keeps_ret.
  - apply keeps_for_each. intros [k r] Hin. apply keeps_execute. eauto.
  - apply keeps_for_each. intros [k p] Hin. apply keeps_execute. eauto.
Qed.

Lemma keeps_load_launches launches rocket_id_map launchpad_id_map :
  (∀ l c w, l ∈ launches → Pw w → Pw (insert_launch eng (get (launch_id l)) c w)) →
  keeps Pd Pw (load_launches eng launches rocket_id_map launchpad_id_map).
Proof.
  intros Hl. unfold load_launches.
  repeat (apply keeps_bind; [|intros ?]);
    auto using keeps_cursor, keeps_commit.
  apply keeps_for_each. intros l Hin. apply keeps_execute. eauto.
Qed.

Lemma keeps_storage launches rockets_map launchpads_map :
  (∀ k r c w, (k, r) ∈ rockets_map → Pw w → Pw (insert_rocket eng (Some k) c w)) →
  (∀ k p c w, (k, p) ∈ launchpads_map → Pw w → Pw (insert_launchpad eng (Some k) c w)) →
  (∀ l c w, l ∈ launches → Pw w → Pw (insert_launch eng (get (launch_id l)) c w)) →
  keeps Pd Pw (storage eng launches rockets_map launchpads_map).
Proof.
  intros Hr Hp Hl. unfold storage.
  apply keeps_bind; [by apply keeps_create_schema|intros _].
  apply keeps_bind; [by apply keeps_load_dimension_tables|intros [? ?]].
  by apply keeps_load_launches.
Qed.
End Loaders.

(** The view of an open connection stays a view, and a closed connection
    stays closed, under a quiet computation that keeps [Pw]. *)
Lemma keeps_view {A : Type} (Pd Pw : database → Prop) (m : M A) s :
  keeps Pd Pw m → quiet m → inv Pd Pw s →
  match session s with
  | Some _ => ∃ w', session (m s).2 = Some w' ∧ Pw w'
  | None => session (m s).2 = None
  end.
Proof.
  intros Hk Hq Hs. destruct (Hq s) as [_ Hopen]. destruct (Hk s Hs) as [_ Hw].
  destruct (session s) as [w|] eqn:Es; [|by apply Hopen].
  destruct (session (m s).2) as [w'|] eqn:Es'; [eauto|].
  destruct Hopen as [Hopen _]. discriminate (Hopen eq_refl).
Qed.

(** C10.  Each loader writes only its own tables.  [load_launches] leaves
    the [rockets] and [launchpads] tables of the connection's view as they
    were, and what it commits of them to the database file is that
    unchanged view: with nothing pending on entry, the file's two tables are
    unchanged.  In the same way [load_dimension_tables] leaves the
    [launches] table unchanged.  This holds for every input and every
    outcome of the loader. *)
Theorem loaders_write_own_tables eng s :
  (∀ launches rocket_id_map launchpad_id_map,
     let s' := (load_launches eng launches rocket_id_map launchpad_id_map s).2 in
     rockets <$> session s' = rockets <$> session s
     ∧ launchpads <$> session s' = launchpads <$> session s
     ∧ (rockets (disk s') = rockets (disk s)
        ∨ Some (rockets (disk s')) = rockets <$> session s)
     ∧ (launchpads (disk s') = launchpads (disk s)
        ∨ Some (launchpads (disk s')) = launchpads <$> session s)
     ∧ (session s = Some (disk s) →
        rockets (disk s') = rockets (disk s)
        ∧ launchpads (disk s') = launchpads (disk s)))
  ∧ (∀ rockets_map launchpads_map,
       let s' := (load_dimension_tables eng rockets_map launchpads_map s).2 in
       launches <$> session s' = launches <$> session s
       ∧ (launches (disk s') = launches (disk s)
          ∨ Some (launches (disk s')) = launches <$> session s)
       ∧ (session s = Some (disk s) → launches (disk s') = launches (disk s))).
Proof.
  split.
  - intros ls rm pm s'.
    set (Pw := λ w, Some (rockets w) = rockets <$> session s
                    ∧ Some (launchpads w) = launchpads <$> session s).
    set (Pd := λ d, (rockets d = rockets (disk s) ∨ Some (rockets d) = rockets <$> session s)
                    ∧ (launchpads d = launchpads (disk s)
                       ∨ Some (launchpads d) = launchpads <$> session s)).
    assert (Hk : keeps Pd Pw (load_launches eng ls rm pm)).
    { apply keeps_load_launches; [intros w [? ?]; split; by right|].
      intros l c w _ HP. exact HP. }
    assert (Hs : inv Pd Pw s).
    { split; [split; by left|]. intros w Hw. unfold Pw. by rewrite Hw. }
    pose proof (keeps_view Pd Pw _ s Hk (quiet_load_launches eng ls rm pm) Hs) as Hv.
    destruct (Hk s Hs) as [[Hd1 Hd2] _]. fold s' in Hv, Hd1, Hd2.
    assert (Hview : rockets <$> session s' = rockets <$> session s
                    ∧ launchpads <$> session s' = launchpads <$> session s).
    { destruct (session s) as [w|] eqn:Es.
      - destruct Hv as (w' & -> & [Hr Hp]). simpl in *.
        split; congruence.
      - by rewrite Hv. }
    split_and!; try tauto.
    intros Hc. rewrite Hc in Hd1, Hd2. simpl in *.
    split; [destruct Hd1|destruct Hd2]; congruence.
  - intros rmap pmap s'.
    set (Pw := λ w, Some (launches w) = launches <$> session s).
    set (Pd := λ d, launches d = launches (disk s)
                    ∨ Some (launches d) = launches <$> session s).
    assert (Hk : keeps Pd Pw (load_dimension_tables eng rmap pmap)).
    { apply keeps_load_dimension_tables; [intros w ?; by right| |].
      - intros k r c w _ HP. exact HP.
      - intros k p c w _ HP. exact HP. }
    assert (Hs : inv Pd Pw s).
    { split; [by left|]. intros w Hw. unfold Pw. by rewrite Hw. }
    pose proof (keeps_view Pd Pw _ s Hk
                  (quiet_load_dimension_tables eng rmap pmap) Hs) as Hv.
    destruct (Hk s Hs) as [Hd _]. unfold Pd in Hd. fold s' in Hv, Hd.
    split_and!; [|done|].
    + destruct (session s) as [w|] eqn:Es.
      * destruct Hv as (w' & -> & Hl). simpl in *. congruence.
      * by rewrite Hv.
    + intros Hc. rewrite Hc in Hd. simpl in *. destruct Hd; congruence.
Qed.

(** ** The loaders, run to completion *)

Lemma bind_param_flag (b : bool) :
  bind_param (Some (VInt (if b then 1 else 0))) = Ok (SInt (if b then 1 else 0)).
Proof. by destruct b. Qed.

Lemma bind_param_key (i : option Z) :
  match i with Some z => int64 z | None => True end →
  bind_param (VInt <$> i) = Ok (match i with Some z => SInt z | None => SNull end).
Proof.
  destruct i as [z|]; simpl; [|done]. intros Hz.
  by rewrite bool_decide_eq_true_2.
Qed.

Lemma bind_param_key_inv (i : option Z) c :
  bind_param (VInt <$> i) = Ok c →
  c = match i with Some z => SInt z | None => SNull end.
Proof.
  destruct i as [z|]; simpl; [|congruence].
  case_bool_decide; congruence.
Qed.

(** The columns that [launch_params] binds, when it binds them all. *)
Lemma launch_params_cols rm pm l c :
  launch_params rm pm l = Ok c →
  bind_param (get (launch_name l)) = Ok (launches_name c)
  ∧ bind_param (get (launch_date_utc l)) = Ok (launches_date_utc c)
  ∧ launches_success c =
      match get (launch_success l) with
      | None => SNull
      | Some v => SInt (if truthy (Some v) then 1 else 0)
      end
  ∧ resolved rm (get (launch_rocket l)) (launches_rocket_id c)
  ∧ resolved pm (get (launch_launchpad l)) (launches_launchpad_id c)
  ∧ bind_param (get (launch_details l)) = Ok (launches_details c).
Proof.
  unfold launch_params, resolved.
  destruct (bind_param (get (launch_name l))) as [name|] eqn:E1; [|done].
  destruct (bind_param (get (launch_date_utc l))) as [date|] eqn:E2; [|done].
  simpl.
  assert (Es : bind_param
      match get (launch_success l) with
      | Some _ => Some (VInt (if truthy (get (launch_success l)) then 1 else 0))
      | None => None
      end = Ok match get (launch_success l) with
               | None => SNull
               | Some v => SInt (if truthy (Some v) then 1 else 0)
               end).
  { destruct (get (launch_success l)) as [v|]; [apply bind_param_flag|done]. }
  rewrite Es. simpl.
  destruct (bind_param (VInt <$> rm !! get (launch_rocket l))) as [rid|] eqn:E3; [|done].
  destruct (bind_param (VInt <$> pm !! get (launch_launchpad l))) as [pid|] eqn:E4; [|done].
  simpl.
  destruct (bind_param (get (launch_details l))) as [details|] eqn:E5; [|done].
  simpl. intros [= <-]. simpl.
  apply bind_param_key_inv in E3, E4.
  split_and!; try done.
  - by destruct (rm !! get (launch_rocket l)).
  - by destruct (pm !! get (launch_launchpad l)).
Qed.

(** No launch fails to bind because of its references: bindable attributes
    and 64-bit keys suffice. *)
Lemma launch_params_total rm pm l :
  launch_bindable l → map_Forall (λ _, int64) rm → map_Forall (λ _, int64) pm →
  is_ok (launch_params rm pm l) = true.
Proof.
  intros (Hn & Hd & Hx) Hrm Hpm. unfold launch_params, bindable in *.
  destruct (bind_param (get (launch_name l))); [|done].
  destruct (bind_param (get (launch_date_utc l))); [|done].
  destruct (bind_param (get (launch_details l))); [|done]. simpl.
  assert (Es : ∀ o : option value, is_ok (bind_param
      match o with
      | Some _ => Some (VInt (if truthy o then 1 else 0))
      | None => None
      end) = true).
  { intros [v|]; [by rewrite bind_param_flag|done]. }
  specialize (Es (get (launch_success l))).
  destruct (bind_param match get (launch_success l) with Some _ => _ | None => _ end);
    [|done]. simpl.
  assert (Hr : match rm !! get (launch_rocket l) with
               | Some z => int64 z
               | None => True
               end).
  { destruct (rm !! get (launch_rocket l)) eqn:E; [|exact I]. by apply Hrm in E. }
  assert (Hp : match pm !! get (launch_launchpad l) with
               | Some z => int64 z
               | None => True
               end).
  { destruct (pm !! get (launch_launchpad l)) eqn:E; [|exact I]. by apply Hpm in E. }
  by rewrite (bind_param_key _ Hr), (bind_param_key _ Hp).
Qed.

Lemma rocket_params_cols r c :
  rocket_params r = Ok c →
  bind_param (get (rocket_name r)) = Ok (rockets_name c)
  ∧ bind_param (get (rocket_type r)) = Ok (rockets_type c)
  ∧ rockets_active c = SInt (if truthy (get (rocket_active r)) then 1 else 0).
Proof.
  unfold rocket_params.
  destruct (bind_param (get (rocket_name r))) as [name|]; [|done].
  destruct (bind_param (get (rocket_type r))) as [type|]; [|done].
  unfold mbind, outcome_bind. rewrite bind_param_flag. by intros [= <-].
Qed.

Lemma rocket_params_total r :
  rocket_bindable r → is_ok (rocket_params r) = true.
Proof.
  intros [Hn Ht]. unfold rocket_params, bindable in *.
  destruct (bind_param (get (rocket_name r))); [|done].
  destruct (bind_param (get (rocket_type r))); [|done].
  unfold mbind, outcome_bind. by rewrite bind_param_flag.
Qed.

Lemma launchpad_params_cols p c :
  launchpad_params p = Ok c →
  bind_param (get (launchpad_name p)) = Ok (launchpads_name c)
  ∧ bind_param (get (launchpad_region p)) = Ok (launchpads_region c)
  ∧ bind_param (get (launchpad_latitude p)) = Ok (launchpads_latitude c)
  ∧ bind_param (get (launchpad_longitude p)) = Ok (launchpads_longitude c).
Proof.
  unfold launchpad_params.
  destruct (bind_param (get (launchpad_name p))) as [name|]; [|done].
  destruct (bind_param (get (launchpad_region p))) as [region|]; [|done].
  destruct (bind_param (get (launchpad_latitude p))) as [lat|]; [|done].
  destruct (bind_param (get (launchpad_longitude p))) as [lon|]; [|done].
  simpl. by intros [= <-].
Qed.

Lemma launchpad_params_total p :
  launchpad_bindable p → is_ok (launchpad_params p) = true.
Proof.
  intros (Hn & Hr & Hla & Hlo). unfold launchpad_params, bindable in *.
  destruct (bind_param (get (launchpad_name p))); [|done].
  destruct (bind_param (get (launchpad_region p))); [|done].
  destruct (bind_param (get (launchpad_latitude p))); [|done].
  by destruct (bind_param (get (launchpad_longitude p))).
Qed.

Section LoadersRun.
Variable eng : engine.

Lemma elem_of_bound {A X : Type} (key : A → option string)
    (params : A → outcome X) l x :
  Forall (λ x, is_ok (params x) = true) l → x ∈ l →
  ∃ c, params x = Ok c ∧ (key x, c) ∈ bound key params l.
Proof.
  intros Hall Hx. rewrite Forall_forall in Hall. specialize (Hall x Hx).
  destruct (params x) as [c|] eqn:E; [|done]. exists c. split; [done|].
  unfold bound. apply list_elem_of_omap. exists x. by rewrite E.
Qed.

Lemma length_bound {A X : Type} (key : A → option string)
    (params : A → outcome X) l :
  Forall (λ x, is_ok (params x) = true) l →
  length (bound key params l) = length l.
Proof.
  intros Hall. apply bound_Forall2 with (key := key) in Hall.
  by apply Forall2_length in Hall.
Qed.

(** The loop of [load_dimension_tables] over rockets, with the key and the
    record of an item read by projections. *)
Lemma rockets_loop rockets_map :
  for_each (λ '(spacex_id, r),
              execute eng (rocket_params r) (insert_rocket eng (Some spacex_id)))
           rockets_map
  = for_each (λ kr : string * rocket,
                execute eng (rocket_params kr.2) (insert_rocket eng (Some kr.1)))
             rockets_map.
Proof. apply for_each_ext. by intros [k r]. Qed.

Lemma launchpads_loop launchpads_map :
  for_each (λ '(spacex_id, p),
              execute eng (launchpad_params p) (insert_launchpad eng (Some spacex_id)))
           launchpads_map
  = for_each (λ kp : string * launchpad,
                execute eng (launchpad_params kp.2) (insert_launchpad eng (Some kp.1)))
             launchpads_map.
Proof. apply for_each_ext. by intros [k p]. Qed.

Lemma load_dimension_tables_total rockets_map launchpads_map s w :
  session s = Some w → no_fault eng →
  Forall (λ kr, is_ok (rocket_params kr.2) = true) rockets_map →
  Forall (λ kp, is_ok (launchpad_params kp.2) = true) launchpads_map →
  let w' := dimensions_loaded eng rockets_map launchpads_map w in
  load_dimension_tables eng rockets_map launchpads_map s =
    (Ok (id_map (rockets w'), id_map (launchpads w')),
     State w' (Some w')
           (calls s + length rockets_map + length launchpads_map + 3)%nat
           (trace s)).
Proof.
  intros Hs Hf Hr Hp w'. unfold load_dimension_tables.
  rewrite bind_run. unfold cursor at 1. rewrite Hs.
  rewrite bind_run, rockets_loop.
  rewrite (for_each_execute_total eng _ _ _ s w Hs Hf Hr).
  rewrite bind_run, launchpads_loop.
  rewrite (for_each_execute_total_open eng _ _ _ _ _ _ _ Hf Hp).
  rewrite run_all_insert_rocket, run_all_insert_launchpad. simpl.
  rewrite bind_run. unfold commit at 1. simpl. rewrite Hf.
  rewrite bind_run. unfold query at 1. simpl. rewrite Hf.
  rewrite bind_run. unfold query at 1. simpl. rewrite Hf.
  unfold mret, M_ret. do 3 f_equal. lia.
Qed.

Lemma load_dimension_tables_Ok rockets_map launchpads_map s w rm pm s' :
  session s = Some w →
  load_dimension_tables eng rockets_map launchpads_map s = (Ok (rm, pm), s') →
  let w' := dimensions_loaded eng rockets_map launchpads_map w in
  rm = id_map (rockets w') ∧ pm = id_map (launchpads w')
  ∧ disk s' = w' ∧ session s' = Some w' ∧ trace s' = trace s
  ∧ Forall (λ kr, is_ok (rocket_params kr.2) = true) rockets_map
  ∧ Forall (λ kp, is_ok (launchpad_params kp.2) = true) launchpads_map.
Proof.
  intros Hs Hrun w'. unfold load_dimension_tables in Hrun.
  rewrite bind_run in Hrun. unfold cursor at 1 in Hrun. rewrite Hs in Hrun.
  rewrite bind_run, rockets_loop in Hrun.
  destruct (for_each _ rockets_map s) as [[[]|e] s1] eqn:E1; [|done].
  apply (for_each_execute_Ok eng _ _ _ _ _ w Hs) in E1 as [-> Hr].
  rewrite bind_run, launchpads_loop in Hrun.
  destruct (for_each _ launchpads_map _) as [[[]|e] s2] eqn:E2; [|done].
  apply for_each_execute_Ok_open in E2 as [-> Hp].
  rewrite run_all_insert_rocket, run_all_insert_launchpad in Hrun.
  simpl in Hrun.
  rewrite bind_run in Hrun. unfold commit at 1 in Hrun. simpl in Hrun.
  destruct (fault eng _); [done|].
  rewrite bind_run in Hrun. unfold query at 1 in Hrun. simpl in Hrun.
  destruct (fault eng _); [done|].
  rewrite bind_run in Hrun. unfold query at 1 in Hrun. simpl in Hrun.
  destruct (fault eng _); [done|].
  injection Hrun as <- <- <-. done.
Qed.

Lemma load_launches_total launches0 rm pm s w :
  session s = Some w → no_fault eng →
  Forall (λ l, is_ok (launch_params rm pm l) = true) launches0 →
  let w' := launches_loaded eng launches0 rm pm w in
  load_launches eng launches0 rm pm s =
    (Ok tt, State w' (Some w') (S (calls s + length launches0)) (trace s)).
Proof.
  intros Hs Hf Hl w'. unfold load_launches.
  rewrite bind_run. unfold cursor at 1. rewrite Hs.
  rewrite bind_run. cbv zeta.
  rewrite (for_each_execute_total eng (launch_params rm pm)
             (λ l, insert_launch eng (get (launch_id l))) _ s w Hs Hf Hl).
  rewrite run_all_insert_launch.
  unfold commit. simpl. by rewrite Hf.
Qed.

Lemma load_launches_Ok launches0 rm pm s w s' :
  session s = Some w →
  load_launches eng launches0 rm pm s = (Ok tt, s') →
  let w' := launches_loaded eng launches0 rm pm w in
  disk s' = w' ∧ session s' = Some w' ∧ trace s' = trace s
  ∧ Forall (λ l, is_ok (launch_params rm pm l) = true) launches0.
Proof.
  intros Hs Hrun w'. unfold load_launches in Hrun.
  rewrite bind_run in Hrun. unfold cursor at 1 in Hrun. rewrite Hs in Hrun.
  rewrite bind_run in Hrun. cbv zeta in Hrun.
  destruct (for_each _ launches0 s) as [[[]|e] s1] eqn:E1; [|done].
  apply (for_each_execute_Ok eng (launch_params rm pm)
           (λ l, insert_launch eng (get (launch_id l))) _ _ _ w Hs) in E1
    as [-> Hl].
  rewrite run_all_insert_launch in Hrun.
  unfold commit in Hrun. simpl in Hrun.
  destruct (fault eng _); [done|]. injection Hrun as <-. done.
Qed.

Lemma load_launches_total_open launches0 rm pm d w n t :
  no_fault eng →
  Forall (λ l, is_ok (launch_params rm pm l) = true) launches0 →
  let w' := launches_loaded eng launches0 rm pm w in
  load_launches eng launches0 rm pm (State d (Some w) n t) =
    (Ok tt, State w' (Some w') (S (n + length launches0)) t).
Proof. intros Hf Hl. by rewrite (load_launches_total _ _ _ _ w). Qed.

Lemma create_schema_total s w :
  session s = Some w → no_fault eng →
  create_schema eng s = (Ok tt, State w (Some w) (calls s + 4)%nat (trace s)).
Proof.
  intros Hs Hf. unfold create_schema, create_table.
  rewrite bind_run. unfold cursor at 1. rewrite Hs.
  do 3 (rewrite bind_run; unfold execute at 1; simpl; rewrite ?Hs, Hf).
  unfold commit. simpl. rewrite ?Hs, Hf. do 3 f_equal. lia.
Qed.

Lemma create_schema_Ok s w s' :
  session s = Some w → create_schema eng s = (Ok tt, s') →
  disk s' = w ∧ session s' = Some w ∧ trace s' = trace s.
Proof.
  intros Hs Hrun. unfold create_schema, create_table in Hrun.
  rewrite bind_run in Hrun. unfold cursor at 1 in Hrun. rewrite Hs in Hrun.
  do 3 (rewrite bind_run in Hrun; unfold execute at 1 in Hrun; simpl in Hrun;
        rewrite ?Hs in Hrun; destruct (fault eng _); [done|]).
  unfold commit in Hrun. simpl in Hrun. rewrite ?Hs in Hrun.
  destruct (fault eng _); [done|]. by injection Hrun as <-.
Qed.
End LoadersRun.

(** ** What the fact loader stores *)

(** C4.  [load_launches] keeps the three states of mission success apart
    in the rows that it stores.  Whenever it runs (open connection, no
    engine fault, attributes that bind), it completes, leaves the rows that
    were in [launches] as they were, and appends one row per inserted
    launch, in order: a launch is inserted when its id is missing or null,
    or when neither the table nor an earlier launch of the list holds its
    id.  The [success] column of that row is 1 for [success = true], 0 for
    [success = false], and NULL exactly when the key is missing or null; it
    is one of these three values, which are pairwise distinct, and a stored
    0 always comes from a present, non-null (falsy) value.  A launch whose
    id is held already is skipped, and the row with its id keeps the value
    it had. *)
Theorem success_stored_tristate eng launches0 rm pm s w :
  session s = Some w → no_fault eng →
  Forall launch_bindable launches0 →
  map_Forall (λ _, int64) rm → map_Forall (λ _, int64) pm →
  ∃ s' new,
    load_launches eng launches0 rm pm s = (Ok tt, s')
    ∧ rows (launches (disk s')) = rows (launches w) ++ new
    ∧ Forall2 (λ l r,
         spacex_id r = get (launch_id l)
         ∧ (launch_success l = Has (VBool true) →
            launches_success (cols r) = SInt 1)
         ∧ (launch_success l = Has (VBool false) →
            launches_success (cols r) = SInt 0)
         ∧ (launch_success l = Missing ∨ launch_success l = Null
            ↔ launches_success (cols r) = SNull)
         ∧ (launches_success (cols r) = SInt 0 →
            ∃ v, launch_success l = Has v ∧ truthy (Some v) = false)
         ∧ (launches_success (cols r) = SInt 1
            ∨ launches_success (cols r) = SInt 0
            ∨ launches_success (cols r) = SNull))
       (inserted (λ l, get (launch_id l)) (keys (launches w)) launches0) new
    ∧ SInt 1 ≠ SInt 0 ∧ SInt 1 ≠ SNull ∧ SInt 0 ≠ SNull.
Proof.
  intros Hs Hf Hb Hrm Hpm.
  assert (Hall : Forall (λ l, is_ok (launch_params rm pm l) = true) launches0).
  { eapply Forall_impl; [exact Hb|]. intros l Hl. by apply launch_params_total. }
  destruct (rows_insert_all_inserted eng (λ l, get (launch_id l))
              (launch_params rm pm) launches0 (launches w) Hall)
    as (new & Hrows & Hnew).
  eexists _, new. split; [by apply load_launches_total|].
  split; [exact Hrows|]. split; [|done].
  eapply Forall2_impl; [exact Hnew|].
  intros l r [Hk Hc]. split; [done|].
  apply launch_params_cols in Hc as (_ & _ & Hsucc & _).
  rewrite Hsucc. clear Hsucc.
  destruct (launch_success l) as [| |v] eqn:E; cbn [get].
  - split_and!; try done; [split; [done|intros _; by left]|by right; right].
  - split_and!; try done; [split; [done|intros _; by right]|by right; right].
  - split_and!.
    + intros [= ->]. reflexivity.
    + intros [= ->]. reflexivity.
    + split; [intros [[=]|[=]]|intros [=]].
    + intros Hz. exists v. split; [done|].
      by destruct (truthy (Some v)).
    + destruct (truthy (Some v)); [by left|by right; left].
Qed.

Lemma success_stored_tristate_witness :
  let eng := Engine (λ _, false) true in
  let l (id : string) (success : field value) :=
    Launch (Has id) Missing Missing success Missing Missing Missing in
  let launches0 := [l "a" (Has (VBool true)); l "b" (Has (VBool false)); l "c" Missing] in
  let s := State empty_database (Some empty_database) 0 [] in
  ∃ s' new,
    load_launches eng launches0 ∅ ∅ s = (Ok tt, s')
    ∧ rows (launches (disk s')) = rows (launches empty_database) ++ new
    ∧ Forall2 (λ l r,
         spacex_id r = get (launch_id l)
         ∧ (launch_success l = Has (VBool true) →
            launches_success (cols r) = SInt 1)
         ∧ (launch_success l = Has (VBool false) →
            launches_success (cols r) = SInt 0)
         ∧ (launch_success l = Missing ∨ launch_success l = Null
            ↔ launches_success (cols r) = SNull)
         ∧ (launches_success (cols r) = SInt 0 →
            ∃ v, launch_success l = Has v ∧ truthy (Some v) = false)
         ∧ (launches_success (cols r) = SInt 1
            ∨ launches_success (cols r) = SInt 0
            ∨ launches_success (cols r) = SNull))
       launches0 new
    ∧ SInt 1 ≠ SInt 0 ∧ SInt 1 ≠ SNull ∧ SInt 0 ≠ SNull.
Proof.
  intros eng l launches0 s.
  apply (success_stored_tristate eng launches0 ∅ ∅ s empty_database).
  - reflexivity.
  - intros n. reflexivity.
  - repeat constructor.
  - apply map_Forall_empty.
  - apply map_Forall_empty.
Defined.

(** C4, as stated, fails for launches whose id is stored already: three
    launches stored while their [success] was null, and loaded again with
    [success] true, false and absent, are not told apart by what is stored;
    the three rows keep NULL. *)
Lemma success_of_stored_launch_not_updated :
  let eng := Engine (λ _, false) true in
  let l (id : string) (success : field value) :=
    Launch (Has id) Missing Missing success Missing Missing Missing in
  let earlier := [l "a" Null; l "b" Null; l "c" Null] in
  let launches0 := [l "a" (Has (VBool true)); l "b" (Has (VBool false)); l "c" Missing] in
  let first :=
    load_launches eng earlier ∅ ∅ (State empty_database (Some empty_database) 0 []) in
  let d := disk first.2 in
  let again := load_launches eng launches0 ∅ ∅ (State d (Some d) 0 []) in
  first.1 = Ok tt ∧ again.1 = Ok tt
  ∧ (λ r, (spacex_id r, launches_success (cols r)))
      <$> rows (launches (disk again.2))
    = [(Some "a", SNull); (Some "b", SNull); (Some "c", SNull)].
Proof. vm_compute. done. Qed.

(** The three launches of the witness are stored with 1, 0 and NULL. *)
Example success_stored_tristate_rows :
  let eng := Engine (λ _, false) true in
  let l (id : string) (success : field value) :=
    Launch (Has id) Missing Missing success Missing Missing Missing in
  let launches0 := [l "a" (Has (VBool true)); l "b" (Has (VBool false)); l "c" Missing] in
  let s := State empty_database (Some empty_database) 0 [] in
  (λ r, (spacex_id r, launches_success (cols r)))
    <$> rows (launches (disk (load_launches eng launches0 ∅ ∅ s).2))
  = [(Some "a", SInt 1); (Some "b", SInt 0); (Some "c", SNull)].
Proof. vm_compute. reflexivity. Qed.


(** ** What the dimension loader stores *)

(** C6.  Whenever [load_dimension_tables] runs (open connection, no engine
    fault, attributes that bind), it completes, leaves the rows that were
    in [rockets] and [launchpads] as they were, and appends one row per
    inserted record, in order, keyed by the external id: a fetched record is
    inserted when neither the table nor an earlier record of the map holds
    its id.  In that row each of the columns [name], [type] (of a rocket)
    and [name], [region], [latitude], [longitude] (of a launchpad) holds
    the attribute as bound, hence NULL when the fetched record lacks it;
    and the boolean-like [active] flag of a rocket is one of the two
    integers 1 and 0: 1 exactly when the fetched value is truthy, so that
    a rocket without an [active] flag is stored with 0, not with NULL. *)
Theorem dimension_columns_stored eng rockets_map launchpads_map s w :
  session s = Some w → no_fault eng →
  Forall (λ kr, rocket_bindable kr.2) rockets_map →
  Forall (λ kp, launchpad_bindable kp.2) launchpads_map →
  ∃ s' maps new_r new_p,
    load_dimension_tables eng rockets_map launchpads_map s = (Ok maps, s')
    ∧ rows (rockets (disk s')) = rows (rockets w) ++ new_r
    ∧ rows (launchpads (disk s')) = rows (launchpads w) ++ new_p
    ∧ Forall2 (λ kr r,
         spacex_id r = Some kr.1
         ∧ bind_param (get (rocket_name kr.2)) = Ok (rockets_name (cols r))
         ∧ bind_param (get (rocket_type kr.2)) = Ok (rockets_type (cols r))
         ∧ (get (rocket_name kr.2) = None → rockets_name (cols r) = SNull)
         ∧ (get (rocket_type kr.2) = None → rockets_type (cols r) = SNull)
         ∧ (rockets_active (cols r) = SInt 1 ∨ rockets_active (cols r) = SInt 0)
         ∧ (rockets_active (cols r) = SInt 1
            ↔ truthy (get (rocket_active kr.2)) = true)
         ∧ (get (rocket_active kr.2) = None → rockets_active (cols r) = SInt 0))
       (inserted (λ kr, Some kr.1) (keys (rockets w)) rockets_map) new_r
    ∧ Forall2 (λ kp r,
         spacex_id r = Some kp.1
         ∧ bind_param (get (launchpad_name kp.2)) = Ok (launchpads_name (cols r))
         ∧ bind_param (get (launchpad_region kp.2))
           = Ok (launchpads_region (cols r))
         ∧ bind_param (get (launchpad_latitude kp.2))
           = Ok (launchpads_latitude (cols r))
         ∧ bind_param (get (launchpad_longitude kp.2))
           = Ok (launchpads_longitude (cols r))
         ∧ (get (launchpad_name kp.2) = None → launchpads_name (cols r) = SNull)
         ∧ (get (launchpad_region kp.2) = None →
            launchpads_region (cols r) = SNull)
         ∧ (get (launchpad_latitude kp.2) = None →
            launchpads_latitude (cols r) = SNull)
         ∧ (get (launchpad_longitude kp.2) = None →
            launchpads_longitude (cols r) = SNull))
       (inserted (λ kp, Some kp.1) (keys (launchpads w)) launchpads_map) new_p.
Proof.
  intros Hs Hf Hr Hp.
  assert (Hr' : Forall (λ kr : string * rocket, is_ok (rocket_params kr.2) = true)
                  rockets_map).
  { eapply Forall_impl; [exact Hr|]. intros kr. apply rocket_params_total. }
  assert (Hp' : Forall (λ kp : string * launchpad, is_ok (launchpad_params kp.2) = true)
                  launchpads_map).
  { eapply Forall_impl; [exact Hp|]. intros kp. apply launchpad_params_total. }
  destruct (rows_insert_all_inserted eng (λ kr : string * rocket, Some kr.1)
              (λ kr, rocket_params kr.2) rockets_map (rockets w) Hr')
    as (new_r & Rrows & Rnew).
  destruct (rows_insert_all_inserted eng (λ kp : string * launchpad, Some kp.1)
              (λ kp, launchpad_params kp.2) launchpads_map (launchpads w) Hp')
    as (new_p & Prows & Pnew).
  eexists _, _, new_r, new_p. split; [by apply load_dimension_tables_total|].
  split; [exact Rrows|]. split; [exact Prows|]. split.
  - eapply Forall2_impl; [exact Rnew|].
    intros [k r] row [Hk Hc]. simpl in *. split; [done|].
    apply rocket_params_cols in Hc as (Hn & Ht & ->).
    split_and!; try done.
    + intros E. rewrite E in Hn. by injection Hn.
    + intros E. rewrite E in Ht. by injection Ht.
    + destruct (truthy (get (rocket_active r))); [by left|by right].
    + by destruct (truthy (get (rocket_active r))).
    + by intros ->.
  - eapply Forall2_impl; [exact Pnew|].
    intros [k p] row [Hk Hc]. simpl in *. split; [done|].
    apply launchpad_params_cols in Hc as (Hn & Hr0 & Hla & Hlo).
    split_and!; try done; intros E.
    + rewrite E in Hn. by injection Hn.
    + rewrite E in Hr0. by injection Hr0.
    + rewrite E in Hla. by injection Hla.
    + rewrite E in Hlo. by injection Hlo.
Qed.

Lemma dimension_columns_stored_witness :
  let eng := Engine (λ _, false) true in
  let r1 := Rocket (Has (VStr "Falcon 9")) Missing (Has (VBool true)) in
  let r2 := Rocket Missing Null Missing in
  let p1 := Launchpad (Has (VStr "KSC")) Missing Null Missing in
  let rockets_map := [("r1", r1); ("r2", r2)] in
  let launchpads_map := [("p1", p1)] in
  let s := State empty_database (Some empty_database) 0 [] in
  ∃ s' maps new_r new_p,
    load_dimension_tables eng rockets_map launchpads_map s = (Ok maps, s')
    ∧ rows (rockets (disk s')) = new_r
    ∧ rows (launchpads (disk s')) = new_p
    ∧ Forall2 (λ kr r,
         spacex_id r = Some kr.1
         ∧ (get (rocket_name kr.2) = None → rockets_name (cols r) = SNull)
         ∧ (get (rocket_type kr.2) = None → rockets_type (cols r) = SNull)
         ∧ (rockets_active (cols r) = SInt 1
            ↔ truthy (get (rocket_active kr.2)) = true)
         ∧ (get (rocket_active kr.2) = None → rockets_active (cols r) = SInt 0))
       rockets_map new_r
    ∧ Forall2 (λ kp r,
         spacex_id r = Some kp.1
         ∧ (get (launchpad_name kp.2) = None → launchpads_name (cols r) = SNull)
         ∧ (get (launchpad_region kp.2) = None →
            launchpads_region (cols r) = SNull)
         ∧ (get (launchpad_latitude kp.2) = None →
            launchpads_latitude (cols r) = SNull)
         ∧ (get (launchpad_longitude kp.2) = None →
            launchpads_longitude (cols r) = SNull))
       launchpads_map new_p.
Proof.
  intros eng r1 r2 p1 rockets_map launchpads_map s.
  destruct (dimension_columns_stored eng rockets_map launchpads_map s empty_database)
    as (s' & maps & new_r & new_p & Hrun & Rrows & Prows & Rnew & Pnew).
  - reflexivity.
  - intros n. reflexivity.
  - repeat constructor.
  - repeat constructor.
  - exists s', maps, new_r, new_p. split; [exact Hrun|].
    split; [exact Rrows|]. split; [exact Prows|]. split.
    + eapply Forall2_impl; [exact Rnew|].
      intros kr r (Hk & _ & _ & Hn & Ht & _ & Ha & Hm). by split_and!.
    + eapply Forall2_impl; [exact Pnew|].
      intros kp r (Hk & _ & _ & _ & _ & Hn & Hr & Hla & Hlo). by split_and!.
Defined.

(** C6, as stated, fails for the [active] flag: a fetched rocket that has
    no [active] attribute is stored with 0 in that column, not with NULL,
    while its missing [type] is stored as NULL. *)
Lemma missing_active_flag_stored_as_zero :
  let eng := Engine (λ _, false) true in
  let r := Rocket (Has (VStr "Falcon 9")) Missing Missing in
  let s := State empty_database (Some empty_database) 0 [] in
  let run := load_dimension_tables eng [("r1", r)] [] s in
  rocket_active r = Missing
  ∧ is_ok run.1 = true
  ∧ rows (rockets (disk run.2))
    = [Row 1 (Some "r1") (RocketsCols (SText "Falcon 9") SNull (SInt 0))]
  ∧ ∀ row, row ∈ rows (rockets (disk run.2)) → rockets_active (cols row) ≠ SNull.
Proof.
  intros eng r s run. split_and!; try (vm_compute; reflexivity).
  intros row Hrow. vm_compute in Hrow.
  apply list_elem_of_singleton in Hrow as ->. discriminate.
Qed.

(** The rows that the witness stores. *)
Example dimension_columns_stored_rows :
  let eng := Engine (λ _, false) true in
  let rockets_map := [("r1", Rocket (Has (VStr "Falcon 9")) Missing (Has (VBool true)));
                      ("r2", Rocket Missing Null Missing)] in
  let launchpads_map := [("p1", Launchpad (Has (VStr "KSC")) Missing Null Missing)] in
  let s := State empty_database (Some empty_database) 0 [] in
  let d := disk (load_dimension_tables eng rockets_map launchpads_map s).2 in
  rows (rockets d) =
    [Row 1 (Some "r1") (RocketsCols (SText "Falcon 9") SNull (SInt 1));
     Row 2 (Some "r2") (RocketsCols SNull SNull (SInt 0))]
  ∧ rows (launchpads d) =
    [Row 1 (Some "p1") (LaunchpadsCols (SText "KSC") SNull SNull SNull)].
Proof. vm_compute. done. Qed.


(** ** Surrogate keys *)

Section Rowids.
Context {C : Type}.
Variable eng : engine.
Implicit Types (t : table C) (k : option string) (c : C) (r : row C).

Lemma foldr_max_init (l : list Z) (b : Z) :
  0 ≤ b → foldr Z.max b l = Z.max (foldr Z.max 0 l) b.
Proof. intros Hb. induction l as [|x l IH]; simpl; lia. Qed.

Lemma max_rowid_nonneg t : 0 ≤ max_rowid t.
Proof.
  unfold max_rowid. induction (rowid <$> rows t) as [|x l IH]; simpl; lia.
Qed.

Lemma max_rowid_snoc (l : list (row C)) r s s' :
  max_rowid (Table (l ++ [r]) s') = Z.max (max_rowid (Table l s)) (Z.max (rowid r) 0).
Proof.
  unfold max_rowid. simpl. rewrite fmap_app, foldr_app. simpl.
  rewrite foldr_max_init; lia.
Qed.

Lemma rowid_le_max t r : r ∈ rows t → rowid r ≤ max_rowid t.
Proof.
  unfold max_rowid. induction (rows t) as [|x l IH]; csimpl.
  - by intros ?%elem_of_nil.
  - intros [->|Hin]%elem_of_cons; [lia|]. specialize (IH Hin). lia.
Qed.

Lemma rowid_lt_next t r : r ∈ rows t → rowid r < next_rowid t.
Proof. intros Hr%rowid_le_max. unfold next_rowid. lia. Qed.

Lemma next_rowid_pos t : 1 ≤ next_rowid t.
Proof. pose proof (max_rowid_nonneg t). unfold next_rowid. lia. Qed.

Lemma next_rowid_insert_new k c t :
  conflicts k t = false →
  next_rowid (insert_or_ignore eng k c t) = next_rowid t + 1.
Proof.
  intros E. unfold insert_or_ignore. rewrite E.
  unfold next_rowid at 1. cbn [sequence].
  rewrite (max_rowid_snoc _ _ (sequence t)). cbn [rowid].
  destruct t as [l s]. pose proof (next_rowid_pos (Table l s)).
  unfold next_rowid in *. simpl in *. lia.
Qed.

Lemma next_rowid_insert_or_ignore k c t :
  next_rowid t ≤ next_rowid (insert_or_ignore eng k c t) ≤ next_rowid t + 1.
Proof.
  destruct (conflicts k t) eqn:E.
  - unfold insert_or_ignore. rewrite E. unfold next_rowid, max_rowid.
    destruct (gap_on_ignore eng); simpl; lia.
  - rewrite next_rowid_insert_new by done. lia.
Qed.

Lemma next_rowid_insert_all kcs t :
  next_rowid t ≤ next_rowid (insert_all eng kcs t)
               ≤ next_rowid t + Z.of_nat (length kcs).
Proof.
  revert t. induction kcs as [|[k c] kcs IH]; intros t; [simpl; lia|].
  rewrite insert_all_cons. specialize (IH (insert_or_ignore eng k c t)).
  pose proof (next_rowid_insert_or_ignore k c t). simpl length. lia.
Qed.
End Rowids.

(** C9.  A launch whose [id] is missing or null is inserted with a NULL
    natural key, and the UNIQUE constraint does not apply to NULL: loading
    it twice stores two rows, under two consecutive surrogate keys.  A
    launch with a text id is stored once however often it is loaded, and not
    at all when the table already holds its id. *)
Theorem null_natural_key_not_deduplicated eng l rm pm c s w :
  session s = Some w → no_fault eng → launch_params rm pm l = Ok c →
  let twice := (load_launches eng [l] rm pm;; load_launches eng [l] rm pm) s in
  let i := next_rowid (launches w) in
  twice.1 = Ok tt
  ∧ (get (launch_id l) = None →
     rows (launches (disk twice.2)) =
       rows (launches w) ++ [Row i None c; Row (i + 1) None c])
  ∧ (∀ k, get (launch_id l) = Some k → Some k ∉ keys (launches w) →
     rows (launches (disk twice.2)) = rows (launches w) ++ [Row i (Some k) c])
  ∧ (∀ k, get (launch_id l) = Some k → Some k ∈ keys (launches w) →
     rows (launches (disk twice.2)) = rows (launches w)).
Proof.
  intros Hs Hf Hc twice i.
  assert (Hall : Forall (λ l, is_ok (launch_params rm pm l) = true) [l]).
  { constructor; [by rewrite Hc|constructor]. }
  assert (Hb : bound (λ l, get (launch_id l)) (launch_params rm pm) [l]
               = [(get (launch_id l), c)]).
  { unfold bound. simpl. by rewrite Hc. }
  subst twice. rewrite bind_run.
  rewrite (load_launches_total eng [l] rm pm s w Hs Hf Hall).
  rewrite (load_launches_total_open eng [l] rm pm _ _ _ _ Hf Hall).
  unfold launches_loaded. rewrite Hb. cbn [fst snd disk launches insert_all foldl].
  split; [done|].
  set (k := get (launch_id l)). set (t := launches w).
  split_and!.
  - intros Hk. rewrite Hk.
    rewrite rows_insert_or_ignore. cbn [conflicts].
    rewrite rows_insert_or_ignore. cbn [conflicts].
    rewrite next_rowid_insert_new by done. by rewrite <- app_assoc.
  - intros k' Hk Hnew. rewrite Hk.
    assert (E : conflicts (Some k') t = false) by (apply conflicts_false; by right).
    rewrite rows_insert_or_ignore.
    assert (E' : conflicts (Some k') (insert_or_ignore eng (Some k') c t) = true).
    { apply conflicts_true. eexists. split; [done|]. apply keys_insert_or_ignore. }
    rewrite E'. by rewrite rows_insert_or_ignore, E.
  - intros k' Hk Hold. rewrite Hk.
    assert (E : conflicts (Some k') t = true) by (apply conflicts_true; eauto).
    rewrite rows_insert_or_ignore.
    assert (E' : conflicts (Some k') (insert_or_ignore eng (Some k') c t) = true).
    { apply conflicts_true. eexists. split; [done|]. apply keys_insert_or_ignore. }
    rewrite E'. by rewrite rows_insert_or_ignore, E.
Qed.

Lemma null_natural_key_not_deduplicated_witness :
  let eng := Engine (λ _, false) true in
  let l := Launch Null (Has (VStr "Starlink")) Missing Missing Missing Missing Missing in
  let c := LaunchesCols (SText "Starlink") SNull SNull SNull SNull SNull in
  let s := State empty_database (Some empty_database) 0 [] in
  let twice := (load_launches eng [l] ∅ ∅;; load_launches eng [l] ∅ ∅) s in
  twice.1 = Ok tt
  ∧ rows (launches (disk twice.2)) = [Row 1 None c; Row 2 None c].
Proof.
  intros eng l c s twice.
  destruct (null_natural_key_not_deduplicated eng l ∅ ∅ c s empty_database)
    as (Hok & Hnull & _); [reflexivity|intros n; reflexivity|reflexivity|].
  split; [exact Hok|]. exact (Hnull eq_refl).
Defined.


(** ** The mapping returned by the dimension loader *)

Lemma elem_of_bound_inv {A X : Type} (key : A → option string)
    (params : A → outcome X) l k c :
  (k, c) ∈ bound key params l → ∃ x, x ∈ l ∧ key x = k ∧ params x = Ok c.
Proof.
  unfold bound. intros (x & Hx & E)%list_elem_of_omap.
  destruct (params x) as [p|] eqn:Ep; [|done]. injection E as <- <-.
  by exists x.
Qed.

Lemma id_map_is_Some {C : Type} (t : table C) k :
  is_Some (id_map t !! k) ↔ k ∈ keys t.
Proof.
  rewrite <- not_eq_None_Some, id_map_lookup_None.
  split; [apply dec_stable|tauto].
Qed.

(** One dimension table after the loop of the loader over a fetched map. *)
Lemma dimension_table_loaded {A C : Type} eng (f : A → string)
    (params : A → outcome C) (l : list A) (t : table C) :
  Forall (λ x, is_ok (params x) = true) l → unique_keys t →
  let t' := insert_all eng (bound (λ x, Some (f x)) params l) t in
  ∃ new,
    rows t' = rows t ++ new
    ∧ Forall (λ r, (spacex_id r ∉ keys t)
                   ∧ (∃ k, spacex_id r = Some k ∧ k ∈ f <$> l)) new
    ∧ (∀ r k, r ∈ rows t' → spacex_id r = Some k →
              id_map t' !! Some k = Some (rowid r))
    ∧ (∀ k, is_Some (id_map t' !! k) ↔ k ∈ keys t')
    ∧ (∀ k, k ∈ f <$> l → is_Some (id_map t' !! Some k)).
Proof.
  intros Hall Hu t'.
  destruct (rows_insert_all eng (bound (λ x, Some (f x)) params l) t)
    as (new & Hrows & Hnew).
  exists new. split_and!.
  - exact Hrows.
  - eapply Forall_impl; [exact Hnew|]. intros r [Hin Hc].
    apply elem_of_bound_inv in Hin as (x & Hx & Hk & _). split.
    + apply conflicts_false in Hc as [Hc|Hc]; [congruence|done].
    + exists (f x). split; [done|]. by apply list_elem_of_fmap_2.
  - intros r k Hr Hk. apply id_map_lookup_row; [|done..].
    by apply unique_keys_insert_all.
  - intros k. apply id_map_is_Some.
  - intros k (x & -> & Hx)%list_elem_of_fmap. apply id_map_is_Some.
    destruct (elem_of_bound (λ x, Some (f x)) params l x Hall Hx) as (c & _ & Hin).
    by eapply keys_insert_all.
Qed.

(** C3.  Whenever [load_dimension_tables] runs (open connection, no engine
    fault, attributes that bind) on tables that satisfy their UNIQUE
    constraint, it returns a mapping that covers every row now in the
    table: its domain is the set of the keys of the table, and it sends the
    external id of every row, whether the row was there before or was
    inserted now, to the surrogate key of that row.  The rows that were there
    are kept as they were, at the front of the table; every new row carries
    a fetched external id that the table did not hold, so that no row is
    inserted again or altered; and every fetched external id is in the
    mapping. *)
Theorem dimension_mapping_covers_table eng rockets_map launchpads_map s w :
  session s = Some w → no_fault eng →
  Forall (λ kr, rocket_bindable kr.2) rockets_map →
  Forall (λ kp, launchpad_bindable kp.2) launchpads_map →
  unique_keys (rockets w) → unique_keys (launchpads w) →
  ∃ s' rm pm new_r new_p,
    load_dimension_tables eng rockets_map launchpads_map s = (Ok (rm, pm), s')
    ∧ rows (rockets (disk s')) = rows (rockets w) ++ new_r
    ∧ rows (launchpads (disk s')) = rows (launchpads w) ++ new_p
    ∧ Forall (λ r, (spacex_id r ∉ keys (rockets w))
                   ∧ (∃ k, spacex_id r = Some k ∧ k ∈ rockets_map.*1)) new_r
    ∧ Forall (λ r, (spacex_id r ∉ keys (launchpads w))
                   ∧ (∃ k, spacex_id r = Some k ∧ k ∈ launchpads_map.*1)) new_p
    ∧ (∀ r k, r ∈ rows (rockets (disk s')) → spacex_id r = Some k →
              rm !! Some k = Some (rowid r))
    ∧ (∀ r k, r ∈ rows (launchpads (disk s')) → spacex_id r = Some k →
              pm !! Some k = Some (rowid r))
    ∧ (∀ k, is_Some (rm !! k) ↔ k ∈ keys (rockets (disk s')))
    ∧ (∀ k, is_Some (pm !! k) ↔ k ∈ keys (launchpads (disk s')))
    ∧ (∀ k, k ∈ rockets_map.*1 → is_Some (rm !! Some k))
    ∧ (∀ k, k ∈ launchpads_map.*1 → is_Some (pm !! Some k)).
Proof.
  intros Hs Hf Hr Hp Hur Hup.
  assert (Hr' : Forall (λ kr : string * rocket, is_ok (rocket_params kr.2) = true)
                  rockets_map).
  { eapply Forall_impl; [exact Hr|]. intros kr. apply rocket_params_total. }
  assert (Hp' : Forall (λ kp : string * launchpad, is_ok (launchpad_params kp.2) = true)
                  launchpads_map).
  { eapply Forall_impl; [exact Hp|]. intros kp. apply launchpad_params_total. }
  destruct (dimension_table_loaded eng fst _ rockets_map (rockets w) Hr' Hur)
    as (new_r & R1 & R2 & R3 & R4 & R5).
  destruct (dimension_table_loaded eng fst _ launchpads_map (launchpads w) Hp' Hup)
    as (new_p & P1 & P2 & P3 & P4 & P5).
  eexists _, _, _, new_r, new_p.
  split; [by apply load_dimension_tables_total|].
  unfold dimensions_loaded. cbn [disk rockets launchpads].
  split_and!; assumption.
Qed.

(** The table holds "r1" under key 1 from an earlier run and only "r2" is
    fetched. *)
Lemma dimension_mapping_covers_table_witness :
  let eng := Engine (λ _, false) true in
  let old := Row 1 (Some "r1") (RocketsCols (SText "Falcon 1") SNull (SInt 0)) in
  let w := Database (Table [old] 1) empty_table empty_table in
  let rockets_map := [("r2", Rocket (Has (VStr "Falcon 9")) Missing (Has (VBool true)))] in
  let s := State w (Some w) 0 [] in
  ∃ s' rm pm new_r,
    load_dimension_tables eng rockets_map [] s = (Ok (rm, pm), s')
    ∧ rows (rockets (disk s')) = [old] ++ new_r
    ∧ Forall (λ r, spacex_id r = Some "r2") new_r
    ∧ (∀ r k, r ∈ rows (rockets (disk s')) → spacex_id r = Some k →
              rm !! Some k = Some (rowid r)).
Proof.
  intros eng old w rockets_map s.
  destruct (dimension_mapping_covers_table eng rockets_map [] s w)
    as (s' & rm & pm & new_r & new_p & H1 & H2 & _ & H4 & _ & H6 & _).
  - reflexivity.
  - intros n. reflexivity.
  - repeat constructor.
  - constructor.
  - apply NoDup_singleton.
  - apply NoDup_nil_2.
  - exists s', rm, pm, new_r. split; [exact H1|]. split; [exact H2|].
    split; [|exact H6].
    eapply Forall_impl; [exact H4|]. intros r [_ (k & Hk & Hin)].
    apply list_elem_of_singleton in Hin. by rewrite Hk, Hin.
Defined.

(** In that run the mapping holds "r1" under 1, as before, and "r2" under
    the new key 2, and the table holds two rows. *)
Example dimension_reresolution :
  let eng := Engine (λ _, false) true in
  let old := Row 1 (Some "r1") (RocketsCols (SText "Falcon 1") SNull (SInt 0)) in
  let w := Database (Table [old] 1) empty_table empty_table in
  let rockets_map := [("r2", Rocket (Has (VStr "Falcon 9")) Missing (Has (VBool true)))] in
  let s := State w (Some w) 0 [] in
  let run := load_dimension_tables eng rockets_map [] s in
  match run.1 with
  | Ok (rocket_id_map, _) =>
      rocket_id_map !! Some "r1" = Some 1 ∧ rocket_id_map !! Some "r2" = Some 2
      ∧ size rocket_id_map = 2%nat
  | Raise _ => False
  end
  ∧ rows (rockets (disk run.2)) =
      [old; Row 2 (Some "r2") (RocketsCols (SText "Falcon 9") SNull (SInt 1))].
Proof. vm_compute. done. Qed.



(** ** Foreign keys *)

Lemma length_bound_le {A X : Type} (key : A → option string)
    (params : A → outcome X) l :
  (length (bound key params l) ≤ length l)%nat.
Proof.
  unfold bound. induction l as [|x l IH]; csimpl; [lia|].
  destruct (params x); csimpl; lia.
Qed.

Lemma rowid_insert_all {C : Type} eng (kcs : list (option string * C)) t r :
  r ∈ rows (insert_all eng kcs t) → r ∈ rows t ∨ next_rowid t ≤ rowid r.
Proof.
  revert t. induction kcs as [|[k c] kcs IH]; intros t; [by left|].
  rewrite insert_all_cons. intros [Hr|Hr]%IH.
  - rewrite rows_insert_or_ignore in Hr. destruct (conflicts k t); [by left|].
    apply elem_of_app in Hr as [Hr|Hr]; [by left|].
    apply list_elem_of_singleton in Hr as ->. right. simpl. lia.
  - right. pose proof (next_rowid_insert_or_ignore eng k c t). lia.
Qed.

(** A dimension table keeps its shape under the loop of the loader, and the
    mapping read back from it holds 64-bit keys only. *)
Lemma dimension_ok_loaded {A C : Type} eng (f : A → string)
    (params : A → outcome C) (l : list A) (t : table C) :
  dimension_ok (length l) t →
  let t' := insert_all eng (bound (λ x, Some (f x)) params l) t in
  unique_keys t' ∧ (None ∉ keys t') ∧ map_Forall (λ _, int64) (id_map t').
Proof.
  intros (Hu & Hn & Hlo & Hhi) t'. split_and!.
  - by apply unique_keys_insert_all.
  - destruct (rows_insert_all eng (bound (λ x, Some (f x)) params l) t)
      as (new & Hrows & Hnew).
    unfold keys. fold t' in Hrows. rewrite Hrows, fmap_app.
    intros [Hin|Hin]%elem_of_app; [done|].
    apply list_elem_of_fmap in Hin as (r & Hr & Hin).
    rewrite Forall_forall in Hnew. destruct (Hnew r Hin) as [Hb _].
    apply elem_of_bound_inv in Hb as (x & _ & Hk & _). congruence.
  - intros k i (r & Hr & _ & <-)%id_map_lookup_Some.
    pose proof (rowid_lt_next _ _ Hr) as Hlt.
    pose proof (next_rowid_insert_all eng (bound (λ x, Some (f x)) params l) t)
      as [_ Hle].
    pose proof (length_bound_le (λ x, Some (f x)) params l).
    fold t' in Hle. apply rowid_insert_all in Hr as [Hr|Hr].
    + rewrite Forall_forall in Hlo. specialize (Hlo r Hr). unfold int64. lia.
    + pose proof (next_rowid_pos t). unfold int64. lia.
Qed.

Lemma resolved_foreign_key {C : Type} (t : table C) ref col :
  unique_keys t → None ∉ keys t →
  resolved (id_map t) ref col → foreign_key t ref col.
Proof.
  intros Hu Hn. unfold resolved, foreign_key. destruct ref as [v|].
  - intros Hres. split.
    + intros r Hr Hk. by rewrite (id_map_lookup_row t r v) in Hres.
    + intros Hnot%id_map_lookup_None. by rewrite Hnot in Hres.
  - apply id_map_lookup_None in Hn. by rewrite Hn.
Qed.

(** C1.  The dimension loader followed by the fact loader, on the mappings
    that the dimension loader returned.  Whenever they run (open connection,
    no engine fault, attributes that bind, dimension tables as this program
    leaves them), both complete and every fetched rocket and launchpad id
    has a row in its table.  The rows that were in [launches] stay as they
    were, and one row is appended per inserted launch, in order: a launch
    is inserted when its id is missing or null, or when neither the table
    nor an earlier launch of the list holds its id.  In that row the
    foreign-key column of each reference field is the surrogate key of the
    row of the dimension table that has the referenced id, and NULL when the
    launch has no value (missing or null) for the field or when no row has
    the referenced id; the launch is inserted whether its references resolve
    or not.  A launch whose id is held already is skipped, and the row with
    its id keeps the foreign keys it had. *)
Theorem foreign_keys_resolved eng rockets_map launchpads_map launches0 s w :
  session s = Some w → no_fault eng →
  Forall (λ kr, rocket_bindable kr.2) rockets_map →
  Forall (λ kp, launchpad_bindable kp.2) launchpads_map →
  Forall launch_bindable launches0 →
  dimension_ok (length rockets_map) (rockets w) →
  dimension_ok (length launchpads_map) (launchpads w) →
  ∃ s' new,
    ('(rocket_id_map, launchpad_id_map) ←
       load_dimension_tables eng rockets_map launchpads_map;
     load_launches eng launches0 rocket_id_map launchpad_id_map) s = (Ok tt, s')
    ∧ rows (launches (disk s')) = rows (launches w) ++ new
    ∧ Forall2 (λ l r,
         spacex_id r = get (launch_id l)
         ∧ foreign_key (rockets (disk s')) (get (launch_rocket l))
             (launches_rocket_id (cols r))
         ∧ foreign_key (launchpads (disk s')) (get (launch_launchpad l))
             (launches_launchpad_id (cols r)))
       (inserted (λ l, get (launch_id l)) (keys (launches w)) launches0) new
    ∧ (∀ k, k ∈ rockets_map.*1 → Some k ∈ keys (rockets (disk s')))
    ∧ (∀ k, k ∈ launchpads_map.*1 → Some k ∈ keys (launchpads (disk s'))).
Proof.
  intros Hs Hf Hr Hp Hl Hdr Hdp.
  assert (Hr' : Forall (λ kr : string * rocket, is_ok (rocket_params kr.2) = true)
                  rockets_map).
  { eapply Forall_impl; [exact Hr|]. intros kr. apply rocket_params_total. }
  assert (Hp' : Forall (λ kp : string * launchpad, is_ok (launchpad_params kp.2) = true)
                  launchpads_map).
  { eapply Forall_impl; [exact Hp|]. intros kp. apply launchpad_params_total. }
  destruct (dimension_ok_loaded eng fst (λ kr, rocket_params kr.2)
              rockets_map (rockets w) Hdr) as (Ur & Nr & Ir).
  destruct (dimension_ok_loaded eng fst (λ kp, launchpad_params kp.2)
              launchpads_map (launchpads w) Hdp) as (Up & Np & Ip).
  destruct Hdr as (Hur & _). destruct Hdp as (Hup & _).
  destruct (dimension_table_loaded eng fst _ rockets_map (rockets w) Hr' Hur)
    as (_ & _ & _ & _ & R4 & R5).
  destruct (dimension_table_loaded eng fst _ launchpads_map (launchpads w) Hp' Hup)
    as (_ & _ & _ & _ & P4 & P5).
  set (w1 := dimensions_loaded eng rockets_map launchpads_map w).
  set (rm := id_map (rockets w1)). set (pm := id_map (launchpads w1)).
  assert (Hl' : Forall (λ l, is_ok (launch_params rm pm l) = true) launches0).
  { eapply Forall_impl; [exact Hl|]. intros l Hb. by apply launch_params_total. }
  destruct (rows_insert_all_inserted eng (λ l, get (launch_id l))
              (launch_params rm pm) launches0 (launches w) Hl')
    as (new & Hrows & Hnew).
  eexists _, new. split.
  { rewrite bind_run.
    rewrite (load_dimension_tables_total eng rockets_map launchpads_map s w Hs Hf Hr' Hp').
    fold w1 rm pm. cbv beta iota.
    apply (load_launches_total_open eng launches0 rm pm _ _ _ _ Hf Hl'). }
  cbn [disk]. unfold launches_loaded. cbn [rockets launchpads launches].
  split_and!.
  - exact Hrows.
  - eapply Forall2_impl; [exact Hnew|].
    intros l r [Hk Hc].
    apply launch_params_cols in Hc as (_ & _ & _ & Hrk & Hpd & _).
    split_and!; [done|by apply resolved_foreign_key..].
  - intros k Hk. apply id_map_is_Some, R5, Hk.
  - intros k Hk. apply id_map_is_Some, P5, Hk.
Qed.

Lemma dimension_ok_empty {C : Type} (n : nat) :
  (Z.of_nat n < 2 ^ 63) → dimension_ok n (@empty_table C).
Proof.
  intros Hn. unfold dimension_ok, unique_keys, keys, next_rowid, max_rowid. simpl.
  split_and!; [constructor|by intros ?%elem_of_nil|constructor|lia].
Qed.

(** One fetched rocket "r1" and launchpad "p1"; the first launch references
    "r1" and has a null launchpad, the second references a rocket "r9" that
    no table holds and the launchpad "p1". *)
Lemma foreign_keys_resolved_witness :
  let eng := Engine (λ _, false) true in
  let rockets_map := [("r1", Rocket (Has (VStr "Falcon 9")) Missing (Has (VBool true)))] in
  let launchpads_map := [("p1", Launchpad (Has (VStr "KSC")) Missing Missing Missing)] in
  let launches0 :=
    [Launch (Has "l1") Missing Missing Missing (Has "r1") Null Missing;
     Launch (Has "l2") Missing Missing Missing (Has "r9") (Has "p1") Missing] in
  let s := State empty_database (Some empty_database) 0 [] in
  ∃ s' new,
    ('(rocket_id_map, launchpad_id_map) ←
       load_dimension_tables eng rockets_map launchpads_map;
     load_launches eng launches0 rocket_id_map launchpad_id_map) s = (Ok tt, s')
    ∧ rows (launches (disk s')) = rows (launches empty_database) ++ new
    ∧ Forall2 (λ l r,
         spacex_id r = get (launch_id l)
         ∧ foreign_key (rockets (disk s')) (get (launch_rocket l))
             (launches_rocket_id (cols r))
         ∧ foreign_key (launchpads (disk s')) (get (launch_launchpad l))
             (launches_launchpad_id (cols r)))
       launches0 new
    ∧ (∀ k, k ∈ rockets_map.*1 → Some k ∈ keys (rockets (disk s')))
    ∧ (∀ k, k ∈ launchpads_map.*1 → Some k ∈ keys (launchpads (disk s'))).
Proof.
  intros eng rockets_map launchpads_map launches0 s.
  apply (foreign_keys_resolved eng rockets_map launchpads_map launches0 s
           empty_database).
  - reflexivity.
  - intros n. reflexivity.
  - repeat constructor.
  - repeat constructor.
  - repeat constructor.
  - apply dimension_ok_empty. reflexivity.
  - apply dimension_ok_empty. reflexivity.
Defined.

(** C1, as stated, fails for a launch whose id is stored already.  A first
    load stores launch "l1" while its rocket is null; in a second load "l1"
    references rocket "r1", which is fetched and stored under surrogate key
    1, and the INSERT of "l1" is ignored: the stored foreign key stays
    NULL. *)
Lemma stored_launch_keeps_null_foreign_key :
  let eng := Engine (λ _, false) true in
  let r1 := Rocket (Has (VStr "Falcon 9")) Missing (Has (VBool true)) in
  let before := Launch (Has "l1") Missing Missing Missing Null Missing Missing in
  let l1 := Launch (Has "l1") Missing Missing Missing (Has "r1") Missing Missing in
  let loaders rockets_map launches0 : M unit :=
    '(rocket_id_map, launchpad_id_map) ← load_dimension_tables eng rockets_map [];
    load_launches eng launches0 rocket_id_map launchpad_id_map in
  let first := loaders [] [before] (State empty_database (Some empty_database) 0 []) in
  let d := disk first.2 in
  let again := loaders [("r1", r1)] [l1] (State d (Some d) 0 []) in
  first.1 = Ok tt ∧ again.1 = Ok tt
  ∧ (λ r, (rowid r, spacex_id r)) <$> rows (rockets (disk again.2))
    = [(1, Some "r1")]
  ∧ (λ r, (spacex_id r, launches_rocket_id (cols r)))
      <$> rows (launches (disk again.2))
    = [(Some "l1", SNull)]
  ∧ ∀ r, r ∈ rows (launches (disk again.2)) →
         spacex_id r = get (launch_id l1) →
         ¬ foreign_key (rockets (disk again.2)) (get (launch_rocket l1))
             (launches_rocket_id (cols r)).
Proof.
  intros eng r1 before l1 loaders first d again.
  split_and!; try (vm_compute; reflexivity).
  intros r Hr _ [Hkey _]. vm_compute in Hr.
  apply list_elem_of_singleton in Hr as ->.
  specialize (Hkey (Row 1 (Some "r1") (RocketsCols (SText "Falcon 9") SNull (SInt 1)))).
  discriminate Hkey; [vm_compute; left|reflexivity].
Qed.

(** The rows that the witness stores: the orphan reference "r9" and the null
    launchpad are NULL, and both launches are inserted. *)
Example foreign_keys_resolved_rows :
  let eng := Engine (λ _, false) true in
  let rockets_map := [("r1", Rocket (Has (VStr "Falcon 9")) Missing (Has (VBool true)))] in
  let launchpads_map := [("p1", Launchpad (Has (VStr "KSC")) Missing Missing Missing)] in
  let launches0 :=
    [Launch (Has "l1") Missing Missing Missing (Has "r1") Null Missing;
     Launch (Has "l2") Missing Missing Missing (Has "r9") (Has "p1") Missing] in
  let s := State empty_database (Some empty_database) 0 [] in
  let d :=
    disk (('(rocket_id_map, launchpad_id_map) ←
             load_dimension_tables eng rockets_map launchpads_map;
           load_launches eng launches0 rocket_id_map launchpad_id_map) s).2 in
  (λ r, (rowid r, spacex_id r)) <$> rows (rockets d) = [(1, Some "r1")]
  ∧ (λ r, (rowid r, spacex_id r)) <$> rows (launchpads d) = [(1, Some "p1")]
  ∧ (λ r, (spacex_id r, launches_rocket_id (cols r), launches_launchpad_id (cols r)))
      <$> rows (launches d)
    = [(Some "l1", SInt 1, SNull); (Some "l2", SNull, SInt 1)].
Proof. vm_compute. done. Qed.


(** ** Running the pipeline again *)

Lemma dict_set_keys {V : Type} (k : string) (v : V) d k' :
  k' ∈ (dict_set k v d).*1 ↔ k' = k ∨ k' ∈ d.*1.
Proof.
  induction d as [|[k0 v0] d IH]; csimpl.
  - rewrite list_elem_of_singleton. set_solver.
  - destruct (String.eqb k k0) eqn:E; csimpl.
    + apply String.eqb_eq in E as ->. set_solver.
    + rewrite !elem_of_cons, IH. tauto.
Qed.

(** The dictionary that the loop over the identifiers builds holds exactly
    the identifiers fetched, next to what it held before. *)
Lemma fetch_each_keys {V : Type} (http : string → response V) resource ids d d' :
  fetch_each http resource ids d = Ok d' →
  ∀ k, k ∈ d'.*1 ↔ k ∈ d.*1 ∨ k ∈ ids.
Proof.
  revert d. induction ids as [|x ids IH]; intros d; simpl.
  - intros [= <-] k. set_solver.
  - destruct (get_json http (resource +:+ "/" +:+ x)) as [v|e]; [|done]. simpl.
    intros Hrun k. rewrite (IH _ Hrun), dict_set_keys, elem_of_cons. tauto.
Qed.

Lemma storage_Ok eng launches0 rockets_map launchpads_map s w s' :
  session s = Some w →
  storage eng launches0 rockets_map launchpads_map s = (Ok tt, s') →
  let w1 := dimensions_loaded eng rockets_map launchpads_map w in
  let rm := id_map (rockets w1) in
  let pm := id_map (launchpads w1) in
  disk s' = launches_loaded eng launches0 rm pm w1
  ∧ Forall (λ kr, is_ok (rocket_params kr.2) = true) rockets_map
  ∧ Forall (λ kp, is_ok (launchpad_params kp.2) = true) launchpads_map
  ∧ Forall (λ l, is_ok (launch_params rm pm l) = true) launches0.
Proof.
  intros Hs Hrun w1 rm pm. unfold storage in Hrun.
  rewrite bind_run in Hrun.
  destruct (create_schema eng s) as [[[]|e] s0] eqn:E0; [|done].
  apply (create_schema_Ok eng s w) in E0 as (_ & Hs0 & _); [|done].
  rewrite bind_run in Hrun.
  destruct (load_dimension_tables eng rockets_map launchpads_map s0)
    as [[[rm' pm']|e] s1] eqn:E1; [|done].
  apply (load_dimension_tables_Ok eng _ _ s0 w) in E1
    as (-> & -> & _ & Hs1 & _ & Hr & Hp); [|done].
  apply (load_launches_Ok eng _ _ _ s1 _ s' Hs1) in Hrun as (Hd & _ & _ & Hl).
  done.
Qed.

Lemma keeps_get_connection (Pd Pw : database → Prop) h :
  (∀ d, Pd d → Pw d) → keeps Pd Pw (get_connection h).
Proof.
  intros Hopen s [Hd Hw]. unfold get_connection.
  destruct (connect_fails h); [by split|]. split; [done|].
  simpl. intros ? [= <-]. auto.
Qed.

(** The natural keys decide which statements are ignored: a view with the
    same rows ignores the same statements. *)
Lemma rows_insert_present {C : Type} eng (k : string) (c : C) (t t0 : table C) :
  rows t = rows t0 → Some k ∈ keys t0 →
  rows (insert_or_ignore eng (Some k) c t) = rows t0.
Proof.
  intros Hrows Hk. rewrite rows_insert_or_ignore.
  assert (E : conflicts (Some k) t = true).
  { apply conflicts_true. exists k. split; [done|]. unfold keys. by rewrite Hrows. }
  by rewrite E.
Qed.


(** After a run that completed, every identifier that the run extracted and
    every text id of a launch is a key of its table. *)
Lemma first_run_keys net h eng d0 launches0 s1 :
  host_ok h →
  extract_all_launches net = Ok launches0 →
  run_etl net h eng (start d0) = (Ok tt, s1) →
  (∀ k, k ∈ (extract_unique_ids launches0).1 → Some k ∈ keys (rockets (disk s1)))
  ∧ (∀ k, k ∈ (extract_unique_ids launches0).2 →
          Some k ∈ keys (launchpads (disk s1)))
  ∧ (∀ l k, l ∈ launches0 → get (launch_id l) = Some k →
            Some k ∈ keys (launches (disk s1))).
Proof.
  intros Hh Hx Hrun. rewrite run_etl_run, Hx in Hrun.
  destruct (fetch_rockets _ _ _) as [rockets_map|e] eqn:Er; [|done].
  destruct (fetch_launchpads _ _ _) as [launchpads_map|e] eqn:Ep; [|done].
  destruct (save_raw_json h "launches" launches0) as [[]|e]; [|done].
  destruct (save_raw_json h "rockets" rockets_map) as [[]|e]; [|done].
  destruct (save_raw_json h "launchpads" launchpads_map) as [[]|e]; [|done].
  rewrite bind_run in Hrun. unfold get_connection in Hrun.
  destruct (connect_fails h); [done|]. unfold try_finally, close in Hrun.
  destruct (storage eng launches0 rockets_map launchpads_map _)
    as [r s'] eqn:Es.
  injection Hrun as -> <-. cbn [disk].
  apply (storage_Ok eng _ _ _ _ d0) in Es as (-> & Hr & Hp & Hl); [|done].
  unfold launches_loaded, dimensions_loaded. cbn [rockets launchpads launches].
  split_and!.
  - intros k Hk.
    assert (Hin : k ∈ rockets_map.*1).
    { apply (fetch_each_keys _ _ _ _ _ Er). right.
      by rewrite (Hh _), elem_of_elements. }
    apply list_elem_of_fmap in Hin as ([k' r] & -> & Hin).
    destruct (elem_of_bound (λ kr : string * rocket, Some kr.1)
                (λ kr, rocket_params kr.2) _ _ Hr Hin) as (c & _ & Hb).
    by eapply keys_insert_all.
  - intros k Hk.
    assert (Hin : k ∈ launchpads_map.*1).
    { apply (fetch_each_keys _ _ _ _ _ Ep). right.
      by rewrite (Hh _), elem_of_elements. }
    apply list_elem_of_fmap in Hin as ([k' p] & -> & Hin).
    destruct (elem_of_bound (λ kp : string * launchpad, Some kp.1)
                (λ kp, launchpad_params kp.2) _ _ Hp Hin) as (c & _ & Hb).
    by eapply keys_insert_all.
  - intros l k Hin Hk.
    destruct (elem_of_bound (λ l, get (launch_id l)) _ _ _ Hl Hin) as (c & _ & Hb).
    rewrite Hk in Hb. by eapply keys_insert_all.
Qed.

(** A run on a database that holds every key it would insert changes no
    row, whatever the host and the engine do. *)
Lemma run_etl_same_rows net h eng d launches0 :
  host_ok h →
  extract_all_launches net = Ok launches0 →
  (∀ k, k ∈ (extract_unique_ids launches0).1 → Some k ∈ keys (rockets d)) →
  (∀ k, k ∈ (extract_unique_ids launches0).2 → Some k ∈ keys (launchpads d)) →
  (∀ l, l ∈ launches0 → ∃ k, get (launch_id l) = Some k
                             ∧ Some k ∈ keys (launches d)) →
  same_rows (disk (run_etl net h eng (start d)).2) d.
Proof.
  intros Hh Hx Kr Kp Kl. rewrite run_etl_run, Hx.
  assert (Hd : same_rows d d) by done.
  destruct (fetch_rockets _ _ _) as [rockets_map|e] eqn:Er; [|done].
  destruct (fetch_launchpads _ _ _) as [launchpads_map|e] eqn:Ep; [|done].
  destruct (save_raw_json h "launches" launches0) as [[]|e]; [|done].
  destruct (save_raw_json h "rockets" rockets_map) as [[]|e]; [|done].
  destruct (save_raw_json h "launchpads" launchpads_map) as [[]|e]; [|done].
  set (P := λ w, same_rows w d).
  assert (Hk : keeps P P
    (get_connection h;;
     try_finally (storage eng launches0 rockets_map launchpads_map) close)).
  { apply keeps_bind; [by apply keeps_get_connection|intros _].
    apply keeps_try_finally; [|by apply keeps_close].
    apply keeps_storage; [done|..].
    - intros k r c w Hin (H1 & H2 & H3). split_and!; [|done..]. cbn [rockets insert_rocket].
      apply rows_insert_present; [done|]. apply Kr.
      assert (Hk : k ∈ rockets_map.*1) by (apply list_elem_of_fmap; by exists (k, r)).
      apply (fetch_each_keys _ _ _ _ _ Er) in Hk as [[]%elem_of_nil|Hk].
      by rewrite (Hh _), elem_of_elements in Hk.
    - intros k p c w Hin (H1 & H2 & H3). split_and!; [done| |done].
      cbn [launchpads insert_launchpad].
      apply rows_insert_present; [done|]. apply Kp.
      assert (Hk : k ∈ launchpads_map.*1) by (apply list_elem_of_fmap; by exists (k, p)).
      apply (fetch_each_keys _ _ _ _ _ Ep) in Hk as [[]%elem_of_nil|Hk].
      by rewrite (Hh _), elem_of_elements in Hk.
    - intros l c w Hin (H1 & H2 & H3). split_and!; [done..|].
      cbn [launches insert_launch].
      destruct (Kl l Hin) as (k & -> & Hk). by apply rows_insert_present. }
  destruct (Hk (start d)) as [Hdisk _]; [|exact Hdisk].
  split; [done|]. intros w [=].
Qed.

Lemma dict_set_elem {V : Type} (k : string) (v : V) d k' v' :
  (k', v') ∈ dict_set k v d → (k', v') = (k, v) ∨ (k', v') ∈ d.
Proof.
  induction d as [|[k0 v0] d IH]; simpl.
  - intros ->%list_elem_of_singleton. by left.
  - destruct (String.eqb k k0).
    + intros [->|Hin]%elem_of_cons; [by left|right; by right].
    + intros [->|Hin]%elem_of_cons; [right; by left|].
      destruct (IH Hin) as [->|?]; [by left|right; by right].
Qed.

(** A loop over the identifiers that completes has fetched each of them, and
    what the dictionary holds in the end was held before or was fetched. *)
Lemma fetch_each_inv {V : Type} (http : string → response V) resource ids d d' :
  fetch_each http resource ids d = Ok d' →
  (∀ x, x ∈ ids → is_ok (get_json http (resource +:+ "/" +:+ x)) = true)
  ∧ (∀ k v, (k, v) ∈ d' →
       (k, v) ∈ d ∨ get_json http (resource +:+ "/" +:+ k) = Ok v).
Proof.
  revert d. induction ids as [|x ids IH]; intros d; simpl.
  - intros [= <-]. split; [by intros ? ?%elem_of_nil|auto].
  - destruct (get_json http (resource +:+ "/" +:+ x)) as [v|e] eqn:E; [|done]. simpl.
    intros [Hall Hin]%IH. split.
    + intros y [->|Hy]%elem_of_cons; [by rewrite E|auto].
    + intros k v' Hk. destruct (Hin k v' Hk) as [Hd|?]; [|by right].
      apply dict_set_elem in Hd as [[= -> ->]|?]; [by right|by left].
Qed.

Lemma fetch_each_total {V : Type} (http : string → response V) resource ids d :
  (∀ x, x ∈ ids → is_ok (get_json http (resource +:+ "/" +:+ x)) = true) →
  ∃ d', fetch_each http resource ids d = Ok d'.
Proof.
  revert d. induction ids as [|x ids IH]; intros d Hall; simpl; [eauto|].
  pose proof (Hall x ltac:(by left)) as Hx.
  destruct (get_json http (resource +:+ "/" +:+ x)) as [v|e]; [|done]. simpl.
  apply IH. intros y Hy. apply Hall. by right.
Qed.

Lemma id_map_rows {C : Type} (t t' : table C) :
  rows t = rows t' → id_map t = id_map t'.
Proof. unfold id_map. by intros ->. Qed.

(** What a completed run has done. *)
Lemma run_etl_Ok net h eng d0 s1 :
  run_etl net h eng (start d0) = (Ok tt, s1) →
  ∃ launches0 rockets_map launchpads_map,
    extract_all_launches net = Ok launches0
    ∧ fetch_rockets net h (extract_unique_ids launches0).1
      = Ok rockets_map
    ∧ fetch_launchpads net h (extract_unique_ids launches0).2
      = Ok launchpads_map
    ∧ let w1 := dimensions_loaded eng rockets_map launchpads_map d0 in
      let rm := id_map (rockets w1) in
      let pm := id_map (launchpads w1) in
      disk s1 = launches_loaded eng launches0 rm pm w1
      ∧ Forall (λ kr, is_ok (rocket_params kr.2) = true) rockets_map
      ∧ Forall (λ kp, is_ok (launchpad_params kp.2) = true) launchpads_map
      ∧ Forall (λ l, is_ok (launch_params rm pm l) = true) launches0.
Proof.
  intros Hrun. rewrite run_etl_run in Hrun.
  destruct (extract_all_launches net) as [launches0|e]; [|done].
  destruct (fetch_rockets _ _ _) as [rockets_map|e] eqn:Er; [|done].
  destruct (fetch_launchpads _ _ _) as [launchpads_map|e] eqn:Ep; [|done].
  destruct (save_raw_json h "launches" launches0) as [[]|e]; [|done].
  destruct (save_raw_json h "rockets" rockets_map) as [[]|e]; [|done].
  destruct (save_raw_json h "launchpads" launchpads_map) as [[]|e]; [|done].
  rewrite bind_run in Hrun. unfold get_connection in Hrun.
  destruct (connect_fails h); [done|]. unfold try_finally, close in Hrun.
  destruct (storage eng launches0 rockets_map launchpads_map _)
    as [r s'] eqn:Es.
  injection Hrun as -> <-. cbn [disk].
  apply (storage_Ok eng _ _ _ _ d0) in Es; [|done].
  exists launches0, rockets_map, launchpads_map.
  split; [done|]. split; [exact Er|]. split; [exact Ep|]. exact Es.
Qed.

(** A database that holds every key of a loop of the dimension loader is
    read back the same after the loop. *)
Lemma insert_all_present_rows {A C : Type} eng (f : A → string)
    (params : A → outcome C) (l : list A) (t : table C) :
  (∀ x, x ∈ l → Some (f x) ∈ keys t) →
  rows (insert_all eng (bound (λ x, Some (f x)) params l) t) = rows t.
Proof.
  intros Hall. apply rows_insert_all_present, Forall_forall.
  intros [k c] (x & Hx & <- & _)%elem_of_bound_inv. cbn [fst].
  apply conflicts_true. eauto.
Qed.

Lemma storage_total eng launches0 rockets_map launchpads_map d w n t :
  no_fault eng →
  Forall (λ kr, is_ok (rocket_params kr.2) = true) rockets_map →
  Forall (λ kp, is_ok (launchpad_params kp.2) = true) launchpads_map →
  let w1 := dimensions_loaded eng rockets_map launchpads_map w in
  Forall (λ l, is_ok (launch_params (id_map (rockets w1)) (id_map (launchpads w1)) l)
               = true) launches0 →
  (storage eng launches0 rockets_map launchpads_map (State d (Some w) n t)).1 = Ok tt.
Proof.
  intros Hf Hr Hp w1 Hl. unfold storage.
  rewrite bind_run, (create_schema_total eng (State d (Some w) n t) w eq_refl Hf).
  rewrite bind_run. cbn [disk session calls trace].
  rewrite (load_dimension_tables_total eng rockets_map launchpads_map
             (State w (Some w) _ _) w eq_refl Hf Hr Hp).
  fold w1. cbv beta iota.
  by rewrite (load_launches_total_open eng launches0 _ _ _ _ _ _ Hf Hl).
Qed.

Lemma try_finally_close_outcome {A : Type} (body : M A) s :
  (try_finally body close s).1 = (body s).1.
Proof. unfold try_finally, close. by destruct (body s). Qed.

(** After a run that completed, a second run on the same source data
    completes too, when its host and its engine raise nothing. *)
Lemma run_etl_again_Ok net h1 eng1 h2 eng2 d0 s1 :
  host_ok h1 → host_ok h2 →
  run_etl net h1 eng1 (start d0) = (Ok tt, s1) →
  no_fault eng2 → connect_fails h2 = false →
  (∀ path, write_fails h2 path = false) →
  (run_etl net h2 eng2 (start (disk s1))).1 = Ok tt.
Proof.
  intros Hh1 Hh2 Hrun Hf Hc Hw.
  destruct (run_etl_Ok _ _ _ _ _ Hrun)
    as (ls & rmap1 & pmap1 & Hx & Er1 & Ep1 & Hd & Hr1 & Hp1 & Hl1).
  destruct (first_run_keys _ _ _ _ _ _ Hh1 Hx Hrun) as (Kr & Kp & _).
  assert (Hsame : ∀ ids x, x ∈ set_order h2 ids ↔ x ∈ set_order h1 ids).
  { intros ids x. by rewrite (Hh1 _), (Hh2 _). }
  rewrite run_etl_run, Hx.
  unfold fetch_rockets, fetch_launchpads in *.
  destruct (fetch_each_total (http_rockets net) "rockets"
              (set_order h2 (extract_unique_ids ls).1) []) as [rmap2 Er2].
  { intros x Hx2%Hsame. by apply (fetch_each_inv _ _ _ _ _ Er1). }
  destruct (fetch_each_total (http_launchpads net) "launchpads"
              (set_order h2 (extract_unique_ids ls).2) []) as [pmap2 Ep2].
  { intros x Hx2%Hsame. by apply (fetch_each_inv _ _ _ _ _ Ep1). }
  rewrite Er2, Ep2. unfold save_raw_json. rewrite !Hw.
  rewrite bind_run. unfold get_connection. rewrite Hc.
  rewrite try_finally_close_outcome.
  assert (Hkeys_r : ∀ k, k ∈ rmap2.*1 → k ∈ rmap1.*1).
  { intros k [[]%elem_of_nil|Hk]%(fetch_each_keys _ _ _ _ _ Er2).
    apply (fetch_each_keys _ _ _ _ _ Er1). right. by apply Hsame. }
  assert (Hkeys_p : ∀ k, k ∈ pmap2.*1 → k ∈ pmap1.*1).
  { intros k [[]%elem_of_nil|Hk]%(fetch_each_keys _ _ _ _ _ Ep2).
    apply (fetch_each_keys _ _ _ _ _ Ep1). right. by apply Hsame. }
  assert (Hin_r : ∀ k, k ∈ rmap2.*1 → k ∈ (extract_unique_ids ls).1).
  { intros k [[]%elem_of_nil|Hk]%(fetch_each_keys _ _ _ _ _ Er2).
    by rewrite (Hh2 _), elem_of_elements in Hk. }
  assert (Hin_p : ∀ k, k ∈ pmap2.*1 → k ∈ (extract_unique_ids ls).2).
  { intros k [[]%elem_of_nil|Hk]%(fetch_each_keys _ _ _ _ _ Ep2).
    by rewrite (Hh2 _), elem_of_elements in Hk. }
  apply storage_total; [done|..].
  - apply Forall_forall. intros [k v] Hin.
    assert (Hk : k ∈ rmap1.*1).
    { apply Hkeys_r, list_elem_of_fmap. by exists (k, v). }
    apply list_elem_of_fmap in Hk as ([k' v1] & -> & Hin1).
    destruct (fetch_each_inv _ _ _ _ _ Er1) as [_ H1].
    destruct (fetch_each_inv _ _ _ _ _ Er2) as [_ H2].
    destruct (H1 _ _ Hin1) as [[]%elem_of_nil|E1].
    destruct (H2 _ _ Hin) as [[]%elem_of_nil|E2].
    simpl in *. rewrite E1 in E2. injection E2 as <-.
    rewrite Forall_forall in Hr1. apply (Hr1 _ Hin1).
  - apply Forall_forall. intros [k v] Hin.
    assert (Hk : k ∈ pmap1.*1).
    { apply Hkeys_p, list_elem_of_fmap. by exists (k, v). }
    apply list_elem_of_fmap in Hk as ([k' v1] & -> & Hin1).
    destruct (fetch_each_inv _ _ _ _ _ Ep1) as [_ H1].
    destruct (fetch_each_inv _ _ _ _ _ Ep2) as [_ H2].
    destruct (H1 _ _ Hin1) as [[]%elem_of_nil|E1].
    destruct (H2 _ _ Hin) as [[]%elem_of_nil|E2].
    simpl in *. rewrite E1 in E2. injection E2 as <-.
    rewrite Forall_forall in Hp1. apply (Hp1 _ Hin1).
  - unfold dimensions_loaded. cbn [rockets launchpads].
    rewrite (id_map_rows _ (rockets (disk s1))).
    2:{ apply insert_all_present_rows. intros [k v] Hin. apply Kr, Hin_r.
        apply list_elem_of_fmap. by exists (k, v). }
    rewrite (id_map_rows
               (insert_all eng2 _ (launchpads (disk s1))) (launchpads (disk s1))).
    2:{ apply insert_all_present_rows. intros [k v] Hin. apply Kp, Hin_p.
        apply list_elem_of_fmap. by exists (k, v). }
    rewrite Hd. exact Hl1.
Qed.

(** C2, as amended.  After a run of [run_etl] that completed, a second run
    against the same source data, in which every launch has a non-null
    [id], leaves the rows of the three tables exactly as they were: none is
    added, removed or altered, and each keeps its surrogate key.  This holds
    whatever the second run's host and engine do (order of iteration,
    failures); if they raise nothing, the second run completes. *)
Theorem rerun_changes_nothing net h1 eng1 h2 eng2 d0 launches0 s1 :
  host_ok h1 → host_ok h2 →
  extract_all_launches net = Ok launches0 →
  Forall (λ l, is_Some (get (launch_id l))) launches0 →
  run_etl net h1 eng1 (start d0) = (Ok tt, s1) →
  let again := run_etl net h2 eng2 (start (disk s1)) in
  same_rows (disk again.2) (disk s1)
  ∧ (no_fault eng2 → connect_fails h2 = false →
     (∀ path, write_fails h2 path = false) → again.1 = Ok tt).
Proof.
  intros Hh1 Hh2 Hx Hid Hrun again. split.
  - destruct (first_run_keys _ _ _ _ _ _ Hh1 Hx Hrun) as (Kr & Kp & Kl).
    apply (run_etl_same_rows net h2 eng2 (disk s1) launches0); try done.
    intros l Hl. rewrite Forall_forall in Hid.
    destruct (Hid l Hl) as [k Hk]. exists k. split; [done|]. by eapply Kl.
  - intros Hf Hc Hw.
    exact (run_etl_again_Ok net h1 eng1 h2 eng2 d0 s1 Hh1 Hh2 Hrun Hf Hc Hw).
Qed.

Lemma rerun_changes_nothing_witness :
  let l1 := Launch (Has "l1") (Has (VStr "FalconSat")) Missing (Has (VBool false))
                   (Has "r1") (Has "p1") Missing in
  let l2 := Launch (Has "l2") (Has (VStr "DemoSat")) Missing Missing
                   (Has "r1") Null Missing in
  let net := Remote (λ _, Body (DArray [l1; l2]))
                    (λ _, Body (Rocket (Has (VStr "Falcon 1")) Missing (Has (VBool false))))
                    (λ _, Body (Launchpad (Has (VStr "Kwajalein")) Missing Missing Missing)) in
  let h := Host elements (λ _, false) false in
  let eng := Engine (λ _, false) true in
  let first := run_etl net h eng (start empty_database) in
  let again := run_etl net h eng (start (disk first.2)) in
  first.1 = Ok tt
  ∧ same_rows (disk again.2) (disk first.2)
  ∧ again.1 = Ok tt.
Proof.
  intros l1 l2 net h eng first again.
  assert (Hh : host_ok h) by (intros ids; reflexivity).
  assert (Hrun : run_etl net h eng (start empty_database) = (Ok tt, first.2))
    by (vm_compute; reflexivity).
  split; [vm_compute; reflexivity|].
  destruct (rerun_changes_nothing net h eng h eng empty_database [l1; l2] first.2
              Hh Hh eq_refl) as [Hsame Hok].
  - repeat (apply Forall_cons_2; [eexists; reflexivity|]). apply Forall_nil_2.
  - exact Hrun.
  - split; [exact Hsame|]. apply Hok; [intros n; reflexivity|reflexivity|].
    intros path. reflexivity.
Defined.

(** C2, as stated, fails: one launch without an [id] is stored again by the
    second run, although both runs complete on the same source data. *)
Lemma rerun_duplicates_launch_without_id :
  let l := Launch Null (Has (VStr "Starlink")) Missing Missing
                  Missing Missing Missing in
  let net := Remote (λ _, Body (DArray [l]))
                    (λ _, Failed ConnectionError) (λ _, Failed ConnectionError) in
  let h := Host elements (λ _, false) false in
  let eng := Engine (λ _, false) false in
  let first := run_etl net h eng (start empty_database) in
  let again := run_etl net h eng (start (disk first.2)) in
  first.1 = Ok tt ∧ again.1 = Ok tt
  ∧ length (rows (launches (disk first.2))) = 1%nat
  ∧ length (rows (launches (disk again.2))) = 2%nat
  ∧ ¬ same_rows (disk again.2) (disk first.2).
Proof.
  intros l net h eng first again.
  split_and!; try (vm_compute; reflexivity).
  intros (_ & _ & Hrows). vm_compute in Hrows. discriminate Hrows.
Qed.


(** ** Runs on concrete inputs *)

(** A request by identifier that times out: [run_etl] raises [SystemExit]
    with the URL, and nothing else has happened. *)
Example run_with_failed_fetch :
  let l := Launch (Has "l1") Missing Missing Missing (Has "r1") Missing Missing in
  let net := Remote (λ _, Body (DArray [l])) (λ _, Failed Timeout)
                    (λ _, Failed Timeout) in
  let h := Host elements (λ _, false) false in
  let eng := Engine (λ _, false) true in
  run_etl net h eng (start empty_database)
  = (Raise (SystemExit "https://api.spacexdata.com/v4/rockets/r1" Timeout),
     start empty_database).
Proof. vm_compute. reflexivity. Qed.

(** A payload that is an object, not a list: [ValueError]. *)
Example run_with_unexpected_payload :
  let net := Remote (λ _, Body (DObject [])) (λ _, Failed Timeout)
                    (λ _, Failed Timeout) in
  let h := Host elements (λ _, false) false in
  let eng := Engine (λ _, false) true in
  run_etl net h eng (start empty_database)
  = (Raise (ValueError "Unexpected launches payload"), start empty_database).
Proof. vm_compute. reflexivity. Qed.

(** The engine fails on the second CREATE TABLE: the run raises, the
    connection has been opened once and closed once, the file is as it
    was. *)
Example run_with_fault_in_create_schema :
  let net := Remote (λ _, Body (DArray [])) (λ _, Failed Timeout)
                    (λ _, Failed Timeout) in
  let h := Host elements (λ _, false) false in
  let eng := Engine (λ n, Nat.eqb n 1) true in
  run_etl net h eng (start empty_database)
  = (Raise OperationalError, State empty_database None 2 [Opened; Closed]).
Proof. vm_compute. reflexivity. Qed.

(** A launch whose [name] is a list cannot be bound: the fact loader raises
    after the dimension loader has committed; the connection is closed, the
    rocket is stored and no launch is. *)
Example run_with_unbindable_launch :
  let l := Launch (Has "l1") (Has (VList [])) Missing Missing (Has "r1")
                  Missing Missing in
  let net := Remote (λ _, Body (DArray [l]))
                    (λ _, Body (Rocket (Has (VStr "Falcon 9")) Missing Missing))
                    (λ _, Failed Timeout) in
  let h := Host elements (λ _, false) false in
  let eng := Engine (λ _, false) true in
  let run := run_etl net h eng (start empty_database) in
  run.1 = Raise InterfaceError
  ∧ session run.2 = None ∧ trace run.2 = [Opened; Closed]
  ∧ spacex_id <$> rows (rockets (disk run.2)) = [Some "r1"]
  ∧ rows (launches (disk run.2)) = [].
Proof. vm_compute. done. Qed.

(** The identifiers of the example of the specification. *)
Example extract_unique_ids_example :
  let l1 := Launch Missing Missing Missing Missing (Has "r1") Null Missing in
  let l2 := Launch Missing Missing Missing Missing (Has "r1") (Has "p1") Missing in
  extract_unique_ids [l1; l2] = ({[ "r1" ]}, {[ "p1" ]})
  ∧ elements (extract_unique_ids [l1; l2; l1]).1 = ["r1"].
Proof. vm_compute. done. Qed.



(** * Further properties of the code *)

(** ** Fetching by identifier *)

Lemma get_json_Ok {A : Type} (http : string → response A) endpoint json :
  get_json http endpoint = Ok json ↔
  http (BASE_URL +:+ "/" +:+ lstrip_slash endpoint) = Body json.
Proof.
  rewrite get_json_run. destruct (http _); split; congruence.
Qed.

Lemma dict_set_fresh {V : Type} (k : string) (v : V) d :
  k ∉ d.*1 → (dict_set k v d).*1 = d.*1 ++ [k].
Proof.
  induction d as [|[k0 v0] d IH]; csimpl; [done|].
  intros [Hne Hk]%not_elem_of_cons.
  destruct (String.eqb k k0) eqn:E; csimpl.
  - by apply String.eqb_eq in E.
  - by rewrite IH.
Qed.

(** The dictionary is filled in the order of the iteration. *)
Lemma fetch_each_order {V : Type} (http : string → response V) resource ids d d' :
  NoDup (d.*1 ++ ids) →
  fetch_each http resource ids d = Ok d' → d'.*1 = d.*1 ++ ids.
Proof.
  revert d. induction ids as [|x ids IH]; intros d Hnd; simpl.
  - intros [= <-]. by rewrite app_nil_r.
  - destruct (get_json http (resource +:+ "/" +:+ x)) as [v|e]; [|done]. simpl.
    intros Hrun. apply NoDup_app in Hnd as Hnd'. destruct Hnd' as (_ & Hx & _).
    assert (Hfresh : x ∉ d.*1).
    { intros Hin. apply (Hx x Hin). by left. }
    apply IH in Hrun.
    + by rewrite Hrun, dict_set_fresh, <- app_assoc.
    + by rewrite dict_set_fresh, <- app_assoc.
Qed.

(** The loop stops at a request that fails, with [SystemExit] and the URL of
    that request. *)
Lemma fetch_each_Raise {V : Type} (http : string → response V) resource ids d e :
  fetch_each http resource ids d = Raise e →
  ∃ x exc, x ∈ ids
    ∧ http (BASE_URL +:+ "/" +:+ lstrip_slash (resource +:+ "/" +:+ x)) = Failed exc
    ∧ e = SystemExit (BASE_URL +:+ "/" +:+ lstrip_slash (resource +:+ "/" +:+ x)) exc.
Proof.
  revert d. induction ids as [|x ids IH]; intros d; simpl; [done|].
  rewrite get_json_run.
  destruct (http (BASE_URL +:+ "/" +:+ lstrip_slash (resource +:+ "/" +:+ x)))
    as [exc|v] eqn:E; simpl.
  - intros [= <-]. exists x, exc. split; [by left|done].
  - intros (y & exc & Hy & Hf & ->)%IH. exists y, exc. split; [by right|done].
Qed.

Lemma fetch_each_exact {V : Type} (http : string → response V) resource
    (ids : list string) d :
  NoDup ids → fetch_each http resource ids [] = Ok d →
  d.*1 = ids ∧ NoDup d.*1
  ∧ ∀ k v, (k, v) ∈ d →
      http (BASE_URL +:+ "/" +:+ lstrip_slash (resource +:+ "/" +:+ k)) = Body v.
Proof.
  intros Hnd Hrun. pose proof (fetch_each_order http resource ids [] d Hnd Hrun) as Hk.
  simpl in Hk. split; [done|]. split; [by rewrite Hk|].
  intros k v Hin. destruct (fetch_each_inv _ _ _ _ _ Hrun) as [_ Hv].
  destruct (Hv k v Hin) as [[]%elem_of_nil|E]. by apply get_json_Ok.
Qed.

Lemma host_ok_NoDup h (ids : gset string) : host_ok h → NoDup (set_order h ids).
Proof. intros Hh. rewrite (Hh ids). apply NoDup_elements. Qed.

Lemma host_ok_elem h (ids : gset string) k :
  host_ok h → k ∈ set_order h ids ↔ k ∈ ids.
Proof. intros Hh. by rewrite (Hh ids), elem_of_elements. Qed.

(** X1.  What [fetch_rockets] and [fetch_launchpads] return when they
    return: a dictionary whose keys, in insertion order, are the identifiers
    of the set in the order of iteration, each exactly once, and whose value
    under an identifier is the body of the response to the request for that
    identifier. *)
Theorem fetched_dictionary_exact net h (ids : gset string) :
  host_ok h →
  (∀ d, fetch_rockets net h ids = Ok d →
     d.*1 = set_order h ids ∧ NoDup d.*1 ∧ (∀ k, k ∈ d.*1 ↔ k ∈ ids)
     ∧ ∀ k r, (k, r) ∈ d →
         http_rockets net (BASE_URL +:+ "/rockets/" +:+ k) = Body r)
  ∧ (∀ d, fetch_launchpads net h ids = Ok d →
       d.*1 = set_order h ids ∧ NoDup d.*1 ∧ (∀ k, k ∈ d.*1 ↔ k ∈ ids)
       ∧ ∀ k p, (k, p) ∈ d →
           http_launchpads net (BASE_URL +:+ "/launchpads/" +:+ k) = Body p).
Proof.
  intros Hh. split.
  - intros d Hrun.
    destruct (fetch_each_exact _ _ _ _ (host_ok_NoDup h ids Hh) Hrun)
      as (Hk & Hnd & Hv).
    split_and!; [done..| |exact Hv].
    intros k. by rewrite Hk, host_ok_elem.
  - intros d Hrun.
    destruct (fetch_each_exact _ _ _ _ (host_ok_NoDup h ids Hh) Hrun)
      as (Hk & Hnd & Hv).
    split_and!; [done..| |exact Hv].
    intros k. by rewrite Hk, host_ok_elem.
Qed.

Lemma fetched_dictionary_exact_witness :
  let net := Remote (λ _, Failed Timeout)
                    (λ url, Body (Rocket (Has (VStr url)) Missing Missing))
                    (λ _, Failed Timeout) in
  let h := Host elements (λ _, false) false in
  let ids : gset string := {[ "r1"; "r2" ]} in
  ∃ d, fetch_rockets net h ids = Ok d
    ∧ d.*1 = set_order h ids ∧ NoDup d.*1 ∧ (∀ k, k ∈ d.*1 ↔ k ∈ ids)
    ∧ ∀ k r, (k, r) ∈ d →
        http_rockets net (BASE_URL +:+ "/rockets/" +:+ k) = Body r.
Proof.
  intros net h ids.
  destruct (fetch_rockets net h ids) as [d|e] eqn:E;
    [|vm_compute in E; discriminate E].
  exists d. split; [reflexivity|].
  destruct (fetched_dictionary_exact net h ids) as [Hr _].
  - intros s. reflexivity.
  - exact (Hr d E).
Defined.

(** X2.  [fetch_rockets] and [fetch_launchpads] return exactly when every
    identifier of the set has a response with a body; otherwise they raise
    [SystemExit] with the URL and the exception of a request, for an
    identifier of the set, that failed. *)
Theorem fetch_by_id_fails_iff net h (ids : gset string) :
  host_ok h →
  (is_ok (fetch_rockets net h ids) = true ↔
     ∀ k, k ∈ ids → ∃ r, http_rockets net (BASE_URL +:+ "/rockets/" +:+ k) = Body r)
  ∧ (∀ e, fetch_rockets net h ids = Raise e →
       ∃ k exc, k ∈ ids
         ∧ http_rockets net (BASE_URL +:+ "/rockets/" +:+ k) = Failed exc
         ∧ e = SystemExit (BASE_URL +:+ "/rockets/" +:+ k) exc)
  ∧ (is_ok (fetch_launchpads net h ids) = true ↔
       ∀ k, k ∈ ids →
         ∃ p, http_launchpads net (BASE_URL +:+ "/launchpads/" +:+ k) = Body p)
  ∧ (∀ e, fetch_launchpads net h ids = Raise e →
       ∃ k exc, k ∈ ids
         ∧ http_launchpads net (BASE_URL +:+ "/launchpads/" +:+ k) = Failed exc
         ∧ e = SystemExit (BASE_URL +:+ "/launchpads/" +:+ k) exc).
Proof.
  intros Hh.
  assert (Hgen : ∀ {V : Type} (http : string → response V) resource,
    (is_ok (fetch_each http resource (set_order h ids) []) = true ↔
       ∀ k, k ∈ ids →
         ∃ v, http (BASE_URL +:+ "/" +:+ lstrip_slash (resource +:+ "/" +:+ k))
              = Body v)
    ∧ (∀ e, fetch_each http resource (set_order h ids) [] = Raise e →
         ∃ k exc, k ∈ ids
           ∧ http (BASE_URL +:+ "/" +:+ lstrip_slash (resource +:+ "/" +:+ k))
             = Failed exc
           ∧ e = SystemExit
                   (BASE_URL +:+ "/" +:+ lstrip_slash (resource +:+ "/" +:+ k)) exc)).
  { intros V http resource. split; [split|].
    - destruct (fetch_each _ _ _ _) as [d|e] eqn:E; [|done]. intros _ k Hk.
      destruct (fetch_each_inv _ _ _ _ _ E) as [Hall _].
      specialize (Hall k ltac:(by apply host_ok_elem)).
      destruct (get_json http (resource +:+ "/" +:+ k)) as [v|] eqn:Ev; [|done].
      exists v. by apply get_json_Ok.
    - intros Hall.
      destruct (fetch_each_total http resource (set_order h ids) []) as [d ->];
        [|done].
      intros x Hx%host_ok_elem; [|done]. destruct (Hall x Hx) as [v Hv].
      apply get_json_Ok in Hv. by rewrite Hv.
    - intros e (x & exc & Hx & Hf & ->)%fetch_each_Raise.
      exists x, exc. split; [by apply host_ok_elem in Hx|done]. }
  destruct (Hgen _ (http_rockets net) "rockets") as [R1 R2].
  destruct (Hgen _ (http_launchpads net) "launchpads") as [P1 P2].
  split_and!; [exact R1|exact R2|exact P1|exact P2].
Qed.

Lemma fetch_by_id_fails_iff_witness :
  let net := Remote (λ _, Failed Timeout)
                    (λ url, if String.eqb url "https://api.spacexdata.com/v4/rockets/r2"
                            then Failed (HTTPError 404)
                            else Body (Rocket Missing Missing Missing))
                    (λ _, Failed Timeout) in
  let h := Host elements (λ _, false) false in
  let ids : gset string := {[ "r1"; "r2" ]} in
  fetch_rockets net h ids
    = Raise (SystemExit "https://api.spacexdata.com/v4/rockets/r2" (HTTPError 404))
  ∧ ∃ k exc, k ∈ ids
      ∧ http_rockets net (BASE_URL +:+ "/rockets/" +:+ k) = Failed exc
      ∧ SystemExit "https://api.spacexdata.com/v4/rockets/r2" (HTTPError 404)
        = SystemExit (BASE_URL +:+ "/rockets/" +:+ k) exc.
Proof.
  intros net h ids.
  assert (Hrun : fetch_rockets net h ids
    = Raise (SystemExit "https://api.spacexdata.com/v4/rockets/r2" (HTTPError 404)))
    by (vm_compute; reflexivity).
  split; [exact Hrun|].
  destruct (fetch_by_id_fails_iff net h ids) as (_ & Hraise & _).
  - intros s. reflexivity.
  - exact (Hraise _ Hrun).
Defined.


(** ** Commit boundaries *)

(** A loop of statements never touches the database file. *)
Lemma for_each_execute_disk eng {A X : Type} (params : A → outcome X)
    (stmt : A → X → database → database) l s :
  disk (for_each (λ x, execute eng (params x) (stmt x)) l s).2 = disk s.
Proof.
  destruct (session s) as [w|] eqn:Es.
  - destruct (for_each_execute_inv eng params stmt (λ _, True) l s w)
      as (w' & n & -> & _); done.
  - by rewrite for_each_execute_closed.
Qed.

Lemma load_launches_cases eng launches0 rm pm s r s' :
  load_launches eng launches0 rm pm s = (r, s') →
  match r with
  | Ok _ => ∃ w, session s = Some w
                 ∧ disk s' = launches_loaded eng launches0 rm pm w
                 ∧ session s' = Some (disk s')
  | Raise _ => disk s' = disk s
  end.
Proof.
  unfold load_launches. rewrite bind_run. unfold cursor at 1.
  destruct (session s) as [w|] eqn:Hs; [|by intros [= <- <-]].
  rewrite bind_run. cbv zeta.
  pose proof (for_each_execute_disk eng (launch_params rm pm)
                (λ l, insert_launch eng (get (launch_id l))) launches0 s) as Hd.
  destruct (for_each _ launches0 s) as [[[]|e] s1] eqn:E1.
  - apply (for_each_execute_Ok eng (launch_params rm pm)
             (λ l, insert_launch eng (get (launch_id l))) _ _ _ w Hs) in E1
      as [-> _].
    rewrite run_all_insert_launch. unfold commit. simpl.
    destruct (fault eng _); intros [= <- <-]; [done|]. by exists w.
  - intros [= <- <-]. exact Hd.
Qed.

(** X3.  [load_launches] is all or nothing on the database file.  When it
    returns, the parameters of every launch of the list were bound and its
    INSERT OR IGNORE was run: the file holds the table after one statement
    per launch, that is the rows it held followed by one row per inserted
    launch with the key and the bound columns of that launch, and nothing
    is pending.  When it raises, whatever the reason (a closed connection, a
    value that cannot be bound, a failure of the engine in a statement or in
    the commit), the file is exactly as it was. *)
Theorem load_launches_all_or_nothing eng launches0 rm pm s :
  let run := load_launches eng launches0 rm pm s in
  match run.1 with
  | Ok _ =>
      ∃ w,
        session s = Some w
        ∧ Forall (λ l, is_ok (launch_params rm pm l) = true) launches0
        ∧ disk run.2 = launches_loaded eng launches0 rm pm w
        ∧ appended (λ l, get (launch_id l)) (launch_params rm pm) launches0
            (launches w) (launches (disk run.2))
        ∧ session run.2 = Some (disk run.2)
  | Raise _ => disk run.2 = disk s
  end.
Proof.
  intros run. pose proof (surjective_pairing run) as Hrun.
  pose proof (load_launches_cases eng launches0 rm pm s run.1 run.2 Hrun) as Hc.
  destruct run.1 as [[]|e]; [|exact Hc].
  destruct Hc as (w & Hs & Hd & Hs').
  destruct (load_launches_Ok eng launches0 rm pm s w run.2 Hs Hrun)
    as (_ & _ & _ & Hall).
  exists w. split_and!; try done. rewrite Hd. by apply appended_insert_all.
Qed.

(** The dimension loader, whatever its outcome: either it raised with the
    file as it was, or both loops bound the parameters of every fetched
    record and ran its statement, and the commit went through. *)
Lemma load_dimension_tables_committed eng rockets_map launchpads_map s r s' :
  load_dimension_tables eng rockets_map launchpads_map s = (r, s') →
  disk s' = disk s ∧ (∀ maps, r ≠ Ok maps)
  ∨ ∃ w, session s = Some w
         ∧ Forall (λ kr, is_ok (rocket_params kr.2) = true) rockets_map
         ∧ Forall (λ kp, is_ok (launchpad_params kp.2) = true) launchpads_map
         ∧ disk s' = dimensions_loaded eng rockets_map launchpads_map w
         ∧ match r with
           | Ok (rm, pm) =>
               session s' = Some (disk s')
               ∧ rm = id_map (rockets (disk s')) ∧ pm = id_map (launchpads (disk s'))
           | Raise e => e = OperationalError
           end.
Proof.
  unfold load_dimension_tables. rewrite bind_run. unfold cursor at 1.
  destruct (session s) as [w|] eqn:Hs; [|intros [= <- <-]; by left].
  rewrite bind_run, rockets_loop.
  pose proof (for_each_execute_disk eng (λ kr : string * rocket, rocket_params kr.2)
                (λ kr, insert_rocket eng (Some kr.1)) rockets_map s) as Hd1.
  destruct (for_each _ rockets_map s) as [[[]|e] s1] eqn:E1;
    [|intros [= <- <-]; by left].
  apply (for_each_execute_Ok eng _ _ _ _ _ w Hs) in E1 as [-> Hr].
  rewrite bind_run, launchpads_loop.
  match goal with
  | |- context [for_each ?f launchpads_map ?s1] =>
      pose proof (for_each_execute_disk eng
                    (λ kp : string * launchpad, launchpad_params kp.2)
                    (λ kp, insert_launchpad eng (Some kp.1)) launchpads_map s1) as Hd2;
      destruct (for_each f launchpads_map s1) as [[[]|e] s2] eqn:E2
  end; [|intros [= <- <-]; left; split; [exact Hd2|done]].
  apply for_each_execute_Ok_open in E2 as [-> Hp].
  rewrite run_all_insert_rocket, run_all_insert_launchpad. simpl.
  rewrite bind_run. unfold commit at 1. simpl.
  destruct (fault eng _); [intros [= <- <-]; by left|].
  rewrite bind_run. unfold query at 1. simpl.
  destruct (fault eng _); [intros [= <- <-]; right; by exists w|].
  rewrite bind_run. unfold query at 1. simpl.
  destruct (fault eng _); [intros [= <- <-]; right; by exists w|].
  intros [= <- <-]. right. by exists w.
Qed.

(** X4.  [load_dimension_tables] commits once, after its last insertion:
    the file never holds a part of the fetched records.  When it returns,
    the parameters of every fetched rocket and launchpad were bound and its
    INSERT OR IGNORE was run: the file holds both tables after one statement
    per fetched record, that is the rows they held followed by one row per
    inserted record with the id and the bound columns of that record, and
    the mappings are read from those tables.  When it raises, the file is as
    it was, unless the failure is one of the engine in the read-back
    SELECTs, after the commit of every record. *)
Theorem load_dimension_tables_commits_once eng rockets_map launchpads_map s :
  let run := load_dimension_tables eng rockets_map launchpads_map s in
  match run.1 with
  | Ok (rm, pm) =>
      ∃ w,
        session s = Some w
        ∧ Forall (λ kr, is_ok (rocket_params kr.2) = true) rockets_map
        ∧ Forall (λ kp, is_ok (launchpad_params kp.2) = true) launchpads_map
        ∧ disk run.2 = dimensions_loaded eng rockets_map launchpads_map w
        ∧ appended (λ kr, Some kr.1) (λ kr, rocket_params kr.2) rockets_map
            (rockets w) (rockets (disk run.2))
        ∧ appended (λ kp, Some kp.1) (λ kp, launchpad_params kp.2) launchpads_map
            (launchpads w) (launchpads (disk run.2))
        ∧ session run.2 = Some (disk run.2)
        ∧ rm = id_map (rockets (disk run.2))
        ∧ pm = id_map (launchpads (disk run.2))
  | Raise e =>
      disk run.2 = disk s
      ∨ ∃ w, session s = Some w
             ∧ Forall (λ kr, is_ok (rocket_params kr.2) = true) rockets_map
             ∧ Forall (λ kp, is_ok (launchpad_params kp.2) = true) launchpads_map
             ∧ disk run.2 = dimensions_loaded eng rockets_map launchpads_map w
             ∧ appended (λ kr, Some kr.1) (λ kr, rocket_params kr.2) rockets_map
                 (rockets w) (rockets (disk run.2))
             ∧ appended (λ kp, Some kp.1) (λ kp, launchpad_params kp.2)
                 launchpads_map (launchpads w) (launchpads (disk run.2))
             ∧ e = OperationalError
  end.
Proof.
  intros run. pose proof (surjective_pairing run) as Hrun.
  apply load_dimension_tables_committed in Hrun.
  destruct run.1 as [[rm pm]|e].
  - destruct Hrun as [[_ Hno]|(w & Hs & Hr & Hp & Hd & Hs' & Hrm & Hpm)];
      [by destruct (Hno (rm, pm))|].
    exists w. split_and!; try done; rewrite Hd; by apply appended_insert_all.
  - destruct Hrun as [[Hd _]|(w & Hs & Hr & Hp & Hd & ->)]; [by left|right].
    exists w. split_and!; try done; rewrite Hd; by apply appended_insert_all.
Qed.


(** ** The database file after a run *)

Lemma create_schema_clean eng d n t r s' :
  create_schema eng (State d (Some d) n t) = (r, s') →
  disk s' = d ∧ session s' = Some d ∧ trace s' = t.
Proof.
  unfold create_schema, create_table. rewrite bind_run. unfold cursor at 1. simpl.
  do 3 (rewrite bind_run; unfold execute at 1; simpl;
        destruct (fault eng _); [by intros [= <- <-]|]).
  unfold commit. simpl. by destruct (fault eng _); intros [= <- <-].
Qed.

(** A run that raises after a commit has bound and run the statement of
    every fetched record. *)
Lemma run_etl_raised net h eng d e s' :
  run_etl net h eng (start d) = (Raise e, s') →
  disk s' = d
  ∨ ∃ launches0 rockets_map launchpads_map,
      extract_all_launches net = Ok launches0
      ∧ fetch_rockets net h (extract_unique_ids launches0).1 = Ok rockets_map
      ∧ fetch_launchpads net h (extract_unique_ids launches0).2 = Ok launchpads_map
      ∧ Forall (λ kr, is_ok (rocket_params kr.2) = true) rockets_map
      ∧ Forall (λ kp, is_ok (launchpad_params kp.2) = true) launchpads_map
      ∧ disk s' = dimensions_loaded eng rockets_map launchpads_map d.
Proof.
  rewrite run_etl_run.
  destruct (extract_all_launches net) as [launches0|e0] eqn:Ex;
    [|intros [= <- <-]; by left].
  destruct (fetch_rockets _ _ _) as [rockets_map|e0] eqn:Er;
    [|intros [= <- <-]; by left].
  destruct (fetch_launchpads _ _ _) as [launchpads_map|e0] eqn:Ep;
    [|intros [= <- <-]; by left].
  destruct (save_raw_json h "launches" launches0) as [[]|e0];
    [|intros [= <- <-]; by left].
  destruct (save_raw_json h "rockets" rockets_map) as [[]|e0];
    [|intros [= <- <-]; by left].
  destruct (save_raw_json h "launchpads" launchpads_map) as [[]|e0];
    [|intros [= <- <-]; by left].
  rewrite bind_run. unfold get_connection.
  destruct (connect_fails h); [intros [= <- <-]; by left|].
  unfold try_finally, close.
  destruct (storage eng launches0 rockets_map launchpads_map _) as [r s1] eqn:Es.
  intros [= -> <-]. cbn [disk]. unfold storage in Es. rewrite bind_run in Es.
  cbn [start disk calls trace] in *.
  destruct (create_schema eng _) as [[[]|e0] s0] eqn:E0;
    apply create_schema_clean in E0 as (Hd0 & Hs0 & _);
    [|injection Es as <- <-; by left].
  rewrite bind_run in Es.
  destruct (load_dimension_tables eng rockets_map launchpads_map s0)
    as [[[rm pm]|e1] s2] eqn:E2;
    apply load_dimension_tables_committed in E2.
  - destruct E2 as [[_ Hno]|(w & Hw & Hr & Hp & Hd2 & _)];
      [by destruct (Hno (rm, pm))|].
    rewrite Hs0 in Hw. injection Hw as <-.
    apply load_launches_cases in Es. right.
    exists launches0, rockets_map, launchpads_map. split_and!; try done.
    by rewrite Es, Hd2.
  - injection Es as <- <-.
    destruct E2 as [[-> _]|(w & Hw & Hr & Hp & -> & _)]; [by left|].
    rewrite Hs0 in Hw. injection Hw as <-. right.
    by exists launches0, rockets_map, launchpads_map.
Qed.

(** A run that raises has committed nothing, or the dimension stage and
    nothing else. *)
Lemma run_etl_failed net h eng d e s' :
  run_etl net h eng (start d) = (Raise e, s') →
  disk s' = d
  ∨ ∃ launches0 rockets_map launchpads_map,
      extract_all_launches net = Ok launches0
      ∧ fetch_rockets net h (extract_unique_ids launches0).1 = Ok rockets_map
      ∧ fetch_launchpads net h (extract_unique_ids launches0).2 = Ok launchpads_map
      ∧ disk s' = dimensions_loaded eng rockets_map launchpads_map d.
Proof.
  intros [?|(ls & rmap & pmap & Hx & Er & Ep & _ & _ & Hd)]%run_etl_raised;
    [by left|right].
  by exists ls, rmap, pmap.
Qed.

(** X5.  The database file after a run of [run_etl], whatever happened.
    If the run completed, the parameters of every fetched record and of
    every launch were bound and its INSERT OR IGNORE was run: each table
    holds the rows it held followed by one row per inserted record or
    launch.  If the run raised, the file is as it was, or it holds the
    whole dimension stage (every fetched record bound and its statement
    run) and not one new launch: the two loaders commit separately, and a
    failure in the fact loader does not undo the dimension loader. *)
Theorem file_after_run net h eng d :
  let run := run_etl net h eng (start d) in
  match run.1 with
  | Ok _ =>
      ∃ launches0 rockets_map launchpads_map,
        extract_all_launches net = Ok launches0
        ∧ fetch_rockets net h (extract_unique_ids launches0).1 = Ok rockets_map
        ∧ fetch_launchpads net h (extract_unique_ids launches0).2 = Ok launchpads_map
        ∧ let w1 := dimensions_loaded eng rockets_map launchpads_map d in
          let rm := id_map (rockets w1) in
          let pm := id_map (launchpads w1) in
          Forall (λ kr, is_ok (rocket_params kr.2) = true) rockets_map
          ∧ Forall (λ kp, is_ok (launchpad_params kp.2) = true) launchpads_map
          ∧ Forall (λ l, is_ok (launch_params rm pm l) = true) launches0
          ∧ disk run.2 = launches_loaded eng launches0 rm pm w1
          ∧ appended (λ kr, Some kr.1) (λ kr, rocket_params kr.2) rockets_map
              (rockets d) (rockets (disk run.2))
          ∧ appended (λ kp, Some kp.1) (λ kp, launchpad_params kp.2)
              launchpads_map (launchpads d) (launchpads (disk run.2))
          ∧ appended (λ l, get (launch_id l)) (launch_params rm pm) launches0
              (launches d) (launches (disk run.2))
  | Raise _ =>
      disk run.2 = d
      ∨ ∃ launches0 rockets_map launchpads_map,
          extract_all_launches net = Ok launches0
          ∧ fetch_rockets net h (extract_unique_ids launches0).1 = Ok rockets_map
          ∧ fetch_launchpads net h (extract_unique_ids launches0).2
            = Ok launchpads_map
          ∧ Forall (λ kr, is_ok (rocket_params kr.2) = true) rockets_map
          ∧ Forall (λ kp, is_ok (launchpad_params kp.2) = true) launchpads_map
          ∧ disk run.2 = dimensions_loaded eng rockets_map launchpads_map d
          ∧ appended (λ kr, Some kr.1) (λ kr, rocket_params kr.2) rockets_map
              (rockets d) (rockets (disk run.2))
          ∧ appended (λ kp, Some kp.1) (λ kp, launchpad_params kp.2)
              launchpads_map (launchpads d) (launchpads (disk run.2))
          ∧ launches (disk run.2) = launches d
  end.
Proof.
  intros run. pose proof (surjective_pairing run) as Hrun.
  destruct run.1 as [[]|e].
  - apply run_etl_Ok in Hrun
      as (ls & rmap & pmap & Hx & Er & Ep & Hd & Hr & Hp & Hl).
    exists ls, rmap, pmap. do 3 (split; [done|]). cbv zeta. rewrite Hd.
    do 4 (split; [done|]). unfold launches_loaded, dimensions_loaded.
    cbn [rockets launchpads launches].
    split_and!; by apply appended_insert_all.
  - apply run_etl_raised in Hrun
      as [?|(ls & rmap & pmap & Hx & Er & Ep & Hr & Hp & Hd)]; [by left|right].
    exists ls, rmap, pmap. split_and!; try done;
      rewrite Hd; try done; unfold dimensions_loaded;
      cbn [rockets launchpads launches]; by apply appended_insert_all.
Qed.

Lemma prefix_insert_or_ignore {C : Type} eng k (c : C) t :
  rows t `prefix_of` rows (insert_or_ignore eng k c t).
Proof.
  rewrite rows_insert_or_ignore. destruct (conflicts k t); [done|].
  by apply prefix_app_r.
Qed.

Lemma prefix_insert_all {C : Type} eng (kcs : list (option string * C)) t :
  rows t `prefix_of` rows (insert_all eng kcs t).
Proof.
  destruct (rows_insert_all eng kcs t) as (new & -> & _). by apply prefix_app_r.
Qed.

(** X6.  [run_etl] only ever appends rows.  Whatever the source data, the
    host and the engine do, and whether the run completes or raises, every
    row that the database file held before the run is still there after it,
    in place and unchanged (key, natural key and columns): nothing is
    updated and nothing is deleted. *)
Theorem run_etl_append_only net h eng d :
  extends d (disk (run_etl net h eng (start d)).2).
Proof.
  assert (Hd : extends d d) by done.
  rewrite run_etl_run.
  destruct (extract_all_launches net) as [launches0|e]; [|done].
  destruct (fetch_rockets _ _ _) as [rockets_map|e]; [|done].
  destruct (fetch_launchpads _ _ _) as [launchpads_map|e]; [|done].
  destruct (save_raw_json h "launches" launches0) as [[]|e]; [|done].
  destruct (save_raw_json h "rockets" rockets_map) as [[]|e]; [|done].
  destruct (save_raw_json h "launchpads" launchpads_map) as [[]|e]; [|done].
  set (P := λ w, extends d w).
  assert (Hk : keeps P P
    (get_connection h;;
     try_finally (storage eng launches0 rockets_map launchpads_map) close)).
  { apply keeps_bind; [by apply keeps_get_connection|intros _].
    apply keeps_try_finally; [|by apply keeps_close].
    apply keeps_storage; [done|..].
    - intros k r c w _ (H1 & H2 & H3). split_and!; [|done..].
      cbn [rockets insert_rocket]. etrans; [exact H1|apply prefix_insert_or_ignore].
    - intros k p c w _ (H1 & H2 & H3). split_and!; [done| |done].
      cbn [launchpads insert_launchpad].
      etrans; [exact H2|apply prefix_insert_or_ignore].
    - intros l c w _ (H1 & H2 & H3). split_and!; [done..|].
      cbn [launches insert_launch].
      etrans; [exact H3|apply prefix_insert_or_ignore]. }
  destruct (Hk (start d)) as [Hdisk _]; [|exact Hdisk].
  split; [done|]. intros w [=].
Qed.

Lemma fk_valid_prefix {C : Type} (dim dim' : table C) col :
  rows dim `prefix_of` rows dim' → fk_valid dim col → fk_valid dim' col.
Proof.
  intros [new Hrows]. unfold fk_valid. destruct col; try done.
  rewrite Hrows, fmap_app. set_solver.
Qed.

Lemma resolved_fk_valid {C : Type} (t : table C) ref col :
  resolved (id_map t) ref col → fk_valid t col.
Proof.
  unfold resolved. destruct (id_map t !! ref) as [i|] eqn:E; intros ->; [|done].
  apply id_map_lookup_Some in E as (r & Hr & _ & <-). simpl.
  by apply list_elem_of_fmap_2.
Qed.

(** X7.  [run_etl] keeps the referential integrity of [launches], which
    SQLite does not enforce for this connection.  If every foreign key of
    the file is NULL or the surrogate key of a row of its dimension table
    before the run, the same holds after it, whether the run completes or
    raises: a launch is never stored with a key of a rocket or launchpad
    that is not in the file. *)
Theorem run_etl_keeps_references net h eng d :
  references_ok d → references_ok (disk (run_etl net h eng (start d)).2).
Proof.
  intros Hok. set (run := run_etl net h eng (start d)).
  pose proof (surjective_pairing run) as Hrun.
  assert (Hdims : ∀ rmap pmap,
    references_ok (dimensions_loaded eng rmap pmap d)).
  { intros rmap pmap. unfold references_ok, dimensions_loaded in *.
    cbn [rockets launchpads launches].
    eapply Forall_impl; [exact Hok|]. intros r [H1 H2].
    split; (eapply fk_valid_prefix; [apply prefix_insert_all|done]). }
  destruct run.1 as [[]|e].
  - apply run_etl_Ok in Hrun
      as (ls & rmap & pmap & _ & _ & _ & Hd & _ & _ & Hl).
    rewrite Hd. specialize (Hdims rmap pmap).
    set (w1 := dimensions_loaded eng rmap pmap d) in *.
    unfold references_ok, launches_loaded in *. cbn [rockets launchpads launches].
    destruct (rows_insert_all eng
                (bound (λ l, get (launch_id l))
                   (launch_params (id_map (rockets w1)) (id_map (launchpads w1))) ls)
                (launches w1)) as (new & -> & Hnew).
    apply Forall_app. split; [exact Hdims|].
    eapply Forall_impl; [exact Hnew|]. intros r [Hin _].
    apply elem_of_bound_inv in Hin as (l & _ & _ & Hc).
    apply launch_params_cols in Hc as (_ & _ & _ & Hr & Hp & _).
    split; by eapply resolved_fk_valid.
  - apply run_etl_failed in Hrun as [->|(ls & rmap & pmap & _ & _ & _ & ->)];
      [done|apply Hdims].
Qed.

Lemma run_etl_keeps_references_witness :
  let l := Launch (Has "l1") Missing Missing Missing (Has "r1") (Has "p9") Missing in
  let net := Remote (λ _, Body (DArray [l]))
                    (λ _, Body (Rocket (Has (VStr "Falcon 9")) Missing Missing))
                    (λ _, Body (Launchpad Missing Missing Missing Missing)) in
  let h := Host elements (λ _, false) false in
  let eng := Engine (λ _, false) true in
  let old := Row 7 (Some "l0") (LaunchesCols SNull SNull SNull (SInt 3) SNull SNull) in
  let d := Database (Table [Row 3 (Some "r0") (RocketsCols SNull SNull (SInt 0))] 3)
                    empty_table (Table [old] 7) in
  references_ok d ∧ references_ok (disk (run_etl net h eng (start d)).2).
Proof.
  intros l net h eng old d.
  assert (Hd : references_ok d).
  { repeat constructor. }
  split; [exact Hd|]. exact (run_etl_keeps_references net h eng d Hd).
Defined.

(** X8.  A snapshot that cannot be written stops the run before the
    database is touched: when the extraction and the fetches have succeeded
    and writing one of the three snapshot files fails, [run_etl] raises
    [OSError] for a file that failed, and no connection has been opened, no
    statement run, and the database file is as it was. *)
Theorem snapshot_failure_is_fatal net h eng d launches0 rockets_map launchpads_map :
  extract_all_launches net = Ok launches0 →
  fetch_rockets net h (extract_unique_ids launches0).1 = Ok rockets_map →
  fetch_launchpads net h (extract_unique_ids launches0).2 = Ok launchpads_map →
  write_fails h "Data/Row/launches.json" = true
  ∨ write_fails h "Data/Row/rockets.json" = true
  ∨ write_fails h "Data/Row/launchpads.json" = true →
  ∃ path, write_fails h path = true
          ∧ run_etl net h eng (start d) = (Raise (OSError path), start d).
Proof.
  intros Hx Er Ep Hw. rewrite run_etl_run, Hx, Er, Ep. unfold save_raw_json.
  change (RAW_DIR +:+ "/" +:+ "launches" +:+ ".json") with "Data/Row/launches.json".
  change (RAW_DIR +:+ "/" +:+ "rockets" +:+ ".json") with "Data/Row/rockets.json".
  change (RAW_DIR +:+ "/" +:+ "launchpads" +:+ ".json")
    with "Data/Row/launchpads.json".
  destruct (write_fails h "Data/Row/launches.json") eqn:W1; [eauto|].
  destruct (write_fails h "Data/Row/rockets.json") eqn:W2; [eauto|].
  destruct (write_fails h "Data/Row/launchpads.json") eqn:W3; [eauto|].
  by destruct Hw as [|[|]].
Qed.

Lemma snapshot_failure_is_fatal_witness :
  let l := Launch (Has "l1") Missing Missing Missing (Has "r1") Missing Missing in
  let r := Rocket (Has (VStr "Falcon 9")) Missing Missing in
  let net := Remote (λ _, Body (DArray [l])) (λ _, Body r) (λ _, Failed Timeout) in
  let h := Host elements (λ path, String.eqb path "Data/Row/rockets.json") false in
  let eng := Engine (λ _, false) true in
  ∃ path, write_fails h path = true
          ∧ run_etl net h eng (start empty_database)
            = (Raise (OSError path), start empty_database).
Proof.
  intros l r net h eng.
  apply (snapshot_failure_is_fatal net h eng empty_database [l] [("r1", r)] []).
  - reflexivity.
  - vm_compute. reflexivity.
  - vm_compute. reflexivity.
  - right. left. reflexivity.
Defined.


(** ** A run that completes *)

Lemma length_set_order h (ids : gset string) :
  host_ok h → length (set_order h ids) = size ids.
Proof. intros Hh. by rewrite (Hh ids). Qed.

(** X9.  When [run_etl] completes.  If the collection request returns a
    list of launches, every rocket and launchpad that a launch references
    has a response with a body, the attributes read are of types that SQLite
    stores, the dimension tables are as this program leaves them with room
    for the new keys, and neither the host nor the engine fails, then
    [run_etl] returns normally, having opened the connection once and
    closed it. *)
Theorem run_etl_completes net h eng d launches0 :
  host_ok h → no_fault eng → connect_fails h = false →
  (∀ path, write_fails h path = false) →
  http_launches net (BASE_URL +:+ "/launches") = Body (DArray launches0) →
  (∀ k, k ∈ (extract_unique_ids launches0).1 →
     ∃ r, http_rockets net (BASE_URL +:+ "/rockets/" +:+ k) = Body r
          ∧ rocket_bindable r) →
  (∀ k, k ∈ (extract_unique_ids launches0).2 →
     ∃ p, http_launchpads net (BASE_URL +:+ "/launchpads/" +:+ k) = Body p
          ∧ launchpad_bindable p) →
  Forall launch_bindable launches0 →
  dimension_ok (size (extract_unique_ids launches0).1) (rockets d) →
  dimension_ok (size (extract_unique_ids launches0).2) (launchpads d) →
  ∃ s', run_etl net h eng (start d) = (Ok tt, s')
        ∧ session s' = None ∧ trace s' = [Opened; Closed].
Proof.
  intros Hh Hf Hc Hw Hx Hr Hp Hl Hdr Hdp.
  assert (Ex : extract_all_launches net = Ok launches0).
  { unfold extract_all_launches. rewrite get_json_run.
    change (lstrip_slash "launches") with "launches".
    change (BASE_URL +:+ "/" +:+ "launches") with (BASE_URL +:+ "/launches").
    by rewrite Hx. }
  destruct (fetch_each_total (http_rockets net) "rockets"
              (set_order h (extract_unique_ids launches0).1) []) as [rmap Er].
  { intros k Hk%host_ok_elem; [|done]. destruct (Hr k Hk) as (r & Hb & _).
    apply (get_json_Ok (http_rockets net) ("rockets" +:+ "/" +:+ k)) in Hb.
    by rewrite Hb. }
  destruct (fetch_each_total (http_launchpads net) "launchpads"
              (set_order h (extract_unique_ids launches0).2) []) as [pmap Ep].
  { intros k Hk%host_ok_elem; [|done]. destruct (Hp k Hk) as (p & Hb & _).
    apply (get_json_Ok (http_launchpads net) ("launchpads" +:+ "/" +:+ k)) in Hb.
    by rewrite Hb. }
  destruct (fetch_each_exact _ _ _ _ (host_ok_NoDup h _ Hh) Er) as (Kr & _ & Vr).
  destruct (fetch_each_exact _ _ _ _ (host_ok_NoDup h _ Hh) Ep) as (Kp & _ & Vp).
  assert (Hr' : Forall (λ kr : string * rocket, is_ok (rocket_params kr.2) = true) rmap).
  { apply Forall_forall. intros [k r] Hin. apply rocket_params_total.
    destruct (Hr k) as (r' & Hb & Hok).
    - apply (host_ok_elem h _ k Hh). rewrite <- Kr.
      apply list_elem_of_fmap. by exists (k, r).
    - assert (E : Body r = Body r')
        by (etrans; [symmetry; exact (Vr k r Hin)|exact Hb]).
      injection E as ->. exact Hok. }
  assert (Hp' : Forall (λ kp : string * launchpad,
                          is_ok (launchpad_params kp.2) = true) pmap).
  { apply Forall_forall. intros [k p] Hin. apply launchpad_params_total.
    destruct (Hp k) as (p' & Hb & Hok).
    - apply (host_ok_elem h _ k Hh). rewrite <- Kp.
      apply list_elem_of_fmap. by exists (k, p).
    - assert (E : Body p = Body p')
        by (etrans; [symmetry; exact (Vp k p Hin)|exact Hb]).
      injection E as ->. exact Hok. }
  assert (Lr : length rmap = size (extract_unique_ids launches0).1).
  { by rewrite <- (length_set_order h _ Hh), <- Kr, length_fmap. }
  assert (Lp : length pmap = size (extract_unique_ids launches0).2).
  { by rewrite <- (length_set_order h _ Hh), <- Kp, length_fmap. }
  rewrite <- Lr in Hdr. rewrite <- Lp in Hdp.
  destruct (dimension_ok_loaded eng fst (λ kr, rocket_params kr.2) rmap (rockets d) Hdr)
    as (_ & _ & Ir).
  destruct (dimension_ok_loaded eng fst (λ kp, launchpad_params kp.2) pmap
              (launchpads d) Hdp) as (_ & _ & Ip).
  set (run := run_etl net h eng (start d)).
  assert (Hrun : run = (get_connection h;;
                        try_finally (storage eng launches0 rmap pmap) close) (start d)).
  { unfold run. rewrite run_etl_run, Ex. unfold fetch_rockets, fetch_launchpads.
    rewrite Er, Ep. unfold save_raw_json. by rewrite !Hw. }
  exists run.2.
  pose proof (opened_then_closed h (storage eng launches0 rmap pmap) (start d) Hc
                (quiet_storage _ _ _ _)) as [Hs Ht].
  rewrite <- Hrun in Hs, Ht. split_and!; [|exact Hs|exact Ht].
  rewrite (surjective_pairing run). f_equal.
  rewrite Hrun, bind_run. unfold get_connection. rewrite Hc.
  rewrite try_finally_close_outcome.
  apply storage_total; [done..|].
  eapply Forall_impl; [exact Hl|]. intros l Hb.
  by apply launch_params_total.
Qed.

Lemma run_etl_completes_witness :
  let l := Launch (Has "l1") (Has (VStr "FalconSat")) Missing (Has (VBool false))
                  (Has "r1") (Has "p1") Missing in
  let net := Remote (λ _, Body (DArray [l]))
                    (λ _, Body (Rocket (Has (VStr "Falcon 1")) Missing (Has (VBool false))))
                    (λ _, Body (Launchpad (Has (VStr "Kwajalein")) Missing Missing Missing)) in
  let h := Host elements (λ _, false) false in
  let eng := Engine (λ _, false) true in
  ∃ s', run_etl net h eng (start empty_database) = (Ok tt, s')
        ∧ session s' = None ∧ trace s' = [Opened; Closed].
Proof.
  intros l net h eng.
  apply (run_etl_completes net h eng empty_database [l]).
  - intros ids. reflexivity.
  - intros n. reflexivity.
  - reflexivity.
  - intros path. reflexivity.
  - reflexivity.
  - intros k _. eexists. split; [reflexivity|]. by split.
  - intros k _. eexists. split; [reflexivity|]. by split_and!.
  - repeat constructor.
  - apply dimension_ok_empty. by vm_compute.
  - apply dimension_ok_empty. by vm_compute.
Defined.

(** ** The keys of the tables after a run that completed *)

Lemma keys_insert_or_ignore_any {C : Type} eng k (c : C) t :
  k ∈ keys (insert_or_ignore eng k c t).
Proof.
  destruct k as [s|]; [apply keys_insert_or_ignore|].
  unfold keys. rewrite rows_insert_or_ignore. cbn [conflicts].
  rewrite fmap_app. set_solver.
Qed.

(** The keys of a table after a run of statements: those it held and those
    of the statements. *)
Lemma keys_insert_all_iff {C : Type} eng (kcs : list (option string * C)) t k :
  k ∈ keys (insert_all eng kcs t) ↔ k ∈ keys t ∨ k ∈ kcs.*1.
Proof.
  split.
  - destruct (rows_insert_all eng kcs t) as (new & Hrows & Hnew).
    unfold keys. rewrite Hrows, fmap_app.
    intros [?|(r & -> & Hr)%list_elem_of_fmap]%elem_of_app; [by left|right].
    rewrite Forall_forall in Hnew. destruct (Hnew r Hr) as [Hin _].
    apply list_elem_of_fmap. by exists (spacex_id r, cols r).
  - intros [Hk|Hk]; [by apply keys_insert_all_mono|].
    apply list_elem_of_fmap in Hk as ([k' c] & -> & Hin). simpl.
    revert t. induction kcs as [|[k0 c0] kcs IH]; intros t;
      [by apply elem_of_nil in Hin|].
    rewrite insert_all_cons.
    apply elem_of_cons in Hin as [[= <- <-]|Hin]; [|by apply IH].
    apply keys_insert_all_mono, keys_insert_or_ignore_any.
Qed.

Lemma bound_keys {A X : Type} (key : A → option string) (params : A → outcome X) l k :
  Forall (λ x, is_ok (params x) = true) l →
  k ∈ (bound key params l).*1 ↔ ∃ x, x ∈ l ∧ key x = k.
Proof.
  intros Hall. split.
  - intros ([k' c] & -> & (x & Hx & Hk & _)%elem_of_bound_inv)%list_elem_of_fmap.
    eauto.
  - intros (x & Hx & <-).
    destruct (elem_of_bound key params l x Hall Hx) as (c & _ & Hin).
    apply list_elem_of_fmap. by exists (key x, c).
Qed.

(** X10.  What the tables hold after a run of [run_etl] that completed: the
    keys of [rockets] (of [launchpads]) are those the table held before and
    the non-empty strings that some launch of the feed holds under [rocket]
    (under [launchpad]), and nothing else; the keys of [launches] are those
    the table held before and the ids of the launches of the feed. *)
Theorem completed_run_holds_exactly net h eng d launches0 s' :
  host_ok h →
  extract_all_launches net = Ok launches0 →
  run_etl net h eng (start d) = (Ok tt, s') →
  (∀ k, k ∈ keys (rockets (disk s')) ↔
        k ∈ keys (rockets d)
        ∨ ∃ v, k = Some v ∧ v ≠ ""
               ∧ ∃ l, l ∈ launches0 ∧ launch_rocket l = Has v)
  ∧ (∀ k, k ∈ keys (launchpads (disk s')) ↔
          k ∈ keys (launchpads d)
          ∨ ∃ v, k = Some v ∧ v ≠ ""
                 ∧ ∃ l, l ∈ launches0 ∧ launch_launchpad l = Has v)
  ∧ (∀ k, k ∈ keys (launches (disk s')) ↔
          k ∈ keys (launches d)
          ∨ ∃ l, l ∈ launches0 ∧ get (launch_id l) = k).
Proof.
  intros Hh Hx Hrun.
  apply run_etl_Ok in Hrun
    as (ls & rmap & pmap & Hx' & Er & Ep & Hd & Hr & Hp & Hl).
  rewrite Hx in Hx'. injection Hx' as <-.
  rewrite extract_unique_ids_referenced in Er, Ep. cbn [fst snd] in Er, Ep.
  setoid_rewrite <- elem_of_referenced.
  destruct (fetch_each_exact _ _ _ _ (host_ok_NoDup h _ Hh) Er) as (Kr & _ & _).
  destruct (fetch_each_exact _ _ _ _ (host_ok_NoDup h _ Hh) Ep) as (Kp & _ & _).
  rewrite Hd. unfold launches_loaded, dimensions_loaded.
  cbn [rockets launchpads launches].
  split_and!; intros k; rewrite keys_insert_all_iff, bound_keys by done.
  - apply or_iff_compat_l. split.
    + intros ([v r] & Hin & <-). exists v. split; [done|].
      apply (host_ok_elem h _ v Hh). rewrite <- Kr.
      apply list_elem_of_fmap. by exists (v, r).
    + intros (v & -> & Hv). apply (host_ok_elem h _ v Hh) in Hv.
      rewrite <- Kr in Hv. apply list_elem_of_fmap in Hv as ([v' r] & -> & Hin).
      by exists (v', r).
  - apply or_iff_compat_l. split.
    + intros ([v p] & Hin & <-). exists v. split; [done|].
      apply (host_ok_elem h _ v Hh). rewrite <- Kp.
      apply list_elem_of_fmap. by exists (v, p).
    + intros (v & -> & Hv). apply (host_ok_elem h _ v Hh) in Hv.
      rewrite <- Kp in Hv. apply list_elem_of_fmap in Hv as ([v' p] & -> & Hin).
      by exists (v', p).
  - done.
Qed.

Lemma completed_run_holds_exactly_witness :
  let l1 := Launch (Has "l1") Missing Missing Missing (Has "r1") Null Missing in
  let l2 := Launch Null Missing Missing Missing (Has "r1") (Has "") Missing in
  let net := Remote (λ _, Body (DArray [l1; l2]))
                    (λ _, Body (Rocket Missing Missing Missing))
                    (λ _, Failed Timeout) in
  let h := Host elements (λ _, false) false in
  let eng := Engine (λ _, false) true in
  let s' := (run_etl net h eng (start empty_database)).2 in
  (∀ k, k ∈ keys (rockets (disk s')) ↔
        k ∈ keys (rockets empty_database)
        ∨ ∃ v, k = Some v ∧ v ≠ ""
               ∧ ∃ l, l ∈ [l1; l2] ∧ launch_rocket l = Has v)
  ∧ (∀ k, k ∈ keys (launchpads (disk s')) ↔
          k ∈ keys (launchpads empty_database)
          ∨ ∃ v, k = Some v ∧ v ≠ ""
                 ∧ ∃ l, l ∈ [l1; l2] ∧ launch_launchpad l = Has v)
  ∧ (∀ k, k ∈ keys (launches (disk s')) ↔
          k ∈ keys (launches empty_database)
          ∨ ∃ l, l ∈ [l1; l2] ∧ get (launch_id l) = k).
Proof.
  intros l1 l2 net h eng s'.
  apply (completed_run_holds_exactly net h eng empty_database [l1; l2] s').
  - intros ids. reflexivity.
  - reflexivity.
  - vm_compute. reflexivity.
Defined.


(** ** Several launches with one id, and launches with none *)

Lemma insert_all_app {C : Type} eng (a b : list (option string * C)) t :
  insert_all eng (a ++ b) t = insert_all eng b (insert_all eng a t).
Proof. unfold insert_all. apply foldl_app. Qed.

Lemma filter_key_absent {C : Type} (k : option string) (l : list (row C)) :
  k ∉ spacex_id <$> l → filter (λ r, spacex_id r = k) l = [].
Proof.
  induction l as [|r l IH]; csimpl; [done|].
  intros [Hne Hk]%not_elem_of_cons.
  rewrite filter_cons_False by done. by apply IH.
Qed.

(** Of the statements of a run that carry one text key that the table does
    not hold, the first inserts its row and the others are ignored. *)
Lemma insert_all_first_wins {C : Type} eng pre k (c : C) post t :
  Some k ∉ keys t → Some k ∉ pre.*1 →
  filter (λ r, spacex_id r = Some k)
         (rows (insert_all eng (pre ++ (Some k, c) :: post) t))
  = [Row (next_rowid (insert_all eng pre t)) (Some k) c].
Proof.
  intros Ht Hpre. rewrite insert_all_app, insert_all_cons.
  set (t1 := insert_all eng pre t).
  assert (H1 : Some k ∉ keys t1).
  { unfold t1. rewrite keys_insert_all_iff. tauto. }
  assert (E1 : conflicts (Some k) t1 = false) by (apply conflicts_false; by right).
  set (t2 := insert_or_ignore eng (Some k) c t1).
  assert (R2 : rows t2 = rows t1 ++ [Row (next_rowid t1) (Some k) c]).
  { unfold t2. by rewrite rows_insert_or_ignore, E1. }
  destruct (rows_insert_all eng post t2) as (new & -> & Hnew).
  rewrite R2, !filter_app, (filter_key_absent _ (rows t1)) by done.
  rewrite (filter_key_absent _ new).
  - by rewrite filter_cons_True, filter_nil by done.
  - intros (r & Hk & Hr)%list_elem_of_fmap.
    rewrite Forall_forall in Hnew. destruct (Hnew r Hr) as [_ Hc].
    apply conflicts_false in Hc as [Hc|Hc]; [congruence|].
    apply Hc. rewrite <- Hk. apply keys_insert_or_ignore.
Qed.

Lemma bound_app {A X : Type} (key : A → option string) (params : A → outcome X) l1 l2 :
  bound key params (l1 ++ l2) = bound key params l1 ++ bound key params l2.
Proof. unfold bound. apply omap_app. Qed.

(** X11.  When a feed holds several launches with one id that the table
    does not hold yet, the first of them is the one stored: after
    [load_launches] has returned, the table has exactly one row with that
    id, and its columns are those of the first launch of the list with the
    id.  Later launches with the id are ignored; they do not replace or
    amend the row. *)
Theorem first_launch_with_an_id_wins eng pre l post rm pm k s w s' :
  session s = Some w →
  load_launches eng (pre ++ l :: post) rm pm s = (Ok tt, s') →
  get (launch_id l) = Some k →
  Some k ∉ keys (launches w) →
  (∀ l', l' ∈ pre → get (launch_id l') ≠ Some k) →
  ∃ c i, launch_params rm pm l = Ok c
         ∧ filter (λ r, spacex_id r = Some k) (rows (launches (disk s')))
           = [Row i (Some k) c].
Proof.
  intros Hs Hrun Hk Hnew Hpre.
  apply (load_launches_Ok eng _ _ _ s w) in Hrun as (-> & _ & _ & Hall); [|done].
  apply Forall_app in Hall as [Hall1 Hall2].
  apply Forall_cons in Hall2 as [Hl Hall2].
  destruct (launch_params rm pm l) as [c|] eqn:Ec; [|done].
  exists c. eexists. split; [done|].
  unfold launches_loaded. cbn [launches]. rewrite bound_app.
  assert (Eb : bound (λ l, get (launch_id l)) (launch_params rm pm) (l :: post)
               = (Some k, c) :: bound (λ l, get (launch_id l)) (launch_params rm pm) post).
  { unfold bound. csimpl. by rewrite Ec, Hk. }
  rewrite Eb. apply insert_all_first_wins; [done|].
  rewrite bound_keys by done. intros (l' & Hl' & Hk'). by apply (Hpre l').
Qed.

Lemma first_launch_with_an_id_wins_witness :
  let eng := Engine (λ _, false) true in
  let l1 := Launch (Has "a") (Has (VStr "first")) Missing Missing Missing Missing
                   Missing in
  let l2 := Launch (Has "a") (Has (VStr "second")) Missing (Has (VBool true))
                   Missing Missing Missing in
  let s := State empty_database (Some empty_database) 0 [] in
  let s' := (load_launches eng [l1; l2] ∅ ∅ s).2 in
  ∃ c i, launch_params ∅ ∅ l1 = Ok c
         ∧ filter (λ r, spacex_id r = Some "a") (rows (launches (disk s')))
           = [Row i (Some "a") c].
Proof.
  intros eng l1 l2 s s'.
  apply (first_launch_with_an_id_wins eng [] l1 [l2] ∅ ∅ "a" s empty_database s').
  - reflexivity.
  - vm_compute. reflexivity.
  - reflexivity.
  - by intros ?%elem_of_nil.
  - by intros l' ?%elem_of_nil.
Defined.

Lemma null_keys_insert_or_ignore {C : Type} eng k (c : C) t :
  length (filter (λ r, spacex_id r = None) (rows (insert_or_ignore eng k c t)))
  = (length (filter (λ r, spacex_id r = None) (rows t))
     + if decide (k = None) then 1 else 0)%nat.
Proof.
  rewrite rows_insert_or_ignore. destruct k as [v|].
  - rewrite decide_False by done. destruct (conflicts (Some v) t); [lia|].
    rewrite filter_app, filter_cons_False, filter_nil by done.
    rewrite length_app. simpl. lia.
  - rewrite decide_True by done. cbn [conflicts].
    rewrite filter_app, filter_cons_True, filter_nil by done.
    by rewrite length_app.
Qed.

Lemma null_keys_insert_all {C : Type} eng (kcs : list (option string * C)) t :
  length (filter (λ r, spacex_id r = None) (rows (insert_all eng kcs t)))
  = (length (filter (λ r, spacex_id r = None) (rows t))
     + length (filter (λ kc, kc.1 = None) kcs))%nat.
Proof.
  revert t. induction kcs as [|[k c] kcs IH]; intros t; [simpl; lia|].
  rewrite insert_all_cons, IH, null_keys_insert_or_ignore.
  destruct (decide (k = None)) as [->|Hk].
  - rewrite filter_cons_True by done. simpl. lia.
  - rewrite filter_cons_False by done. lia.
Qed.

Lemma null_keys_bound {A X : Type} (key : A → option string)
    (params : A → outcome X) l :
  Forall (λ x, is_ok (params x) = true) l →
  length (filter (λ kc, kc.1 = None) (bound key params l))
  = length (filter (λ x, key x = None) l).
Proof.
  intros Hall. apply bound_Forall2 with (key := key) in Hall.
  induction Hall as [|x [k c] l kcs [Hk _] _ IH]; [done|]. simpl in Hk. subst k.
  destruct (decide (key x = None)) as [E|E].
  - rewrite !filter_cons_True by done. simpl. by rewrite IH.
  - by rewrite !filter_cons_False.
Qed.

(** X12.  Launches without an id pile up.  Every call of [load_launches]
    that returns has added one row with a NULL natural key for each launch
    of its list whose [id] is missing or null, whatever the table held: the
    number of such rows grows by the number of such launches. *)
Theorem launches_without_id_accumulate eng launches0 rm pm s w s' :
  session s = Some w →
  load_launches eng launches0 rm pm s = (Ok tt, s') →
  length (filter (λ r, spacex_id r = None) (rows (launches (disk s'))))
  = (length (filter (λ r, spacex_id r = None) (rows (launches w)))
     + length (filter (λ l, get (launch_id l) = None) launches0))%nat.
Proof.
  intros Hs Hrun.
  apply (load_launches_Ok eng _ _ _ s w) in Hrun as (-> & _ & _ & Hall); [|done].
  unfold launches_loaded. cbn [launches].
  by rewrite null_keys_insert_all, null_keys_bound.
Qed.

Lemma launches_without_id_accumulate_witness :
  let eng := Engine (λ _, false) false in
  let l1 := Launch Missing Missing Missing Missing Missing Missing Missing in
  let l2 := Launch (Has "a") Missing Missing Missing Missing Missing Missing in
  let l3 := Launch Null Missing Missing Missing Missing Missing Missing in
  let old := Row 4 None (LaunchesCols SNull SNull SNull SNull SNull SNull) in
  let w := Database empty_table empty_table (Table [old] 4) in
  let s := State w (Some w) 0 [] in
  let s' := (load_launches eng [l1; l2; l3] ∅ ∅ s).2 in
  length (filter (λ r, spacex_id r = None) (rows (launches (disk s')))) = 3%nat.
Proof.
  intros eng l1 l2 l3 old w s s'.
  rewrite (launches_without_id_accumulate eng [l1; l2; l3] ∅ ∅ s w s').
  - reflexivity.
  - reflexivity.
  - vm_compute. reflexivity.
Defined.
